(** * SakuyaEngine: geometry kernel, scenes and the client loop

    A shallow embedding of the engine's Python sources:
      - [SakuyaEngine/math.py]   the geometry kernel ([Math]),
      - [scene.py]               scenes, entities and the scene manager ([Scene]),
      - [client.py]              the earlier client, which runs the scenes of
                                 [scene.py] ([OldClient]),
      - [SakuyaEngine/client.py] the client and its main loop ([Client]); the
                                 [scene] module of its package is not among
                                 the sources ([EngineScene]).

    Python's [float] is the binary64 format, Rocq's primitive [float], and
    [int] is [Z]; exceptions are values of [exn] carried by [outcome];
    objects that are shared and mutated (entities) live in a store indexed
    by their identity; a [dict] that is iterated keeps its keys in insertion
    order. *)

From Stdlib Require Import Floats QArith Qabs Qround Lia ZArith List.
From stdpp Require Import functions gmap strings list.

Set Warnings "-inexact-float".

(** ** Exceptions and results *)

Inductive exn : Set :=
  | NegativeSpeedError
  | EntityNotInScene
  | NoActiveSceneError
  | SceneNotActiveError
  | KeyError
  | ValueError
  | TypeError
  | OverflowError.

Global Instance exn_eq_dec : EqDecision exn.
Proof. solve_decision. Defined.

Inductive outcome (A : Type) : Type :=
  | Returns (a : A)
  | Raises (e : exn).
Arguments Returns {A} a.
Arguments Raises {A} e.

(** Expressions that may raise, evaluated in order. *)
Global Instance outcome_ret : MRet outcome := fun A a => Returns a.
Global Instance outcome_bind : MBind outcome := fun A B k m =>
  match m with
  | Returns a => k a
  | Raises e => Raises e
  end.

(** Methods that mutate [self] and may raise: a state and exception monad.
    The state is returned on both paths, since what a method did before it
    raised stays done. *)
Definition M (S A : Type) : Type := S -> outcome A * S.

Global Instance M_ret {S} : MRet (M S) := fun A a s => (Returns a, s).
Global Instance M_bind {S} : MBind (M S) := fun A B k m s =>
  match m s with
  | (Returns a, s') => k a s'
  | (Raises e, s') => (Raises e, s')
  end.

Definition raise {S A} (e : exn) : M S A := fun s => (Raises e, s).
Definition get {S} : M S S := fun s => (Returns s, s).
Definition modify {S} (f : S -> S) : M S unit := fun s => (Returns tt, f s).

(** [try: body except e: handler]. *)
Definition try_except {S A} (body : M S A) (e : exn) (handler : M S A) : M S A :=
  fun s =>
    match body s with
    | (Raises e', s') => if decide (e' = e) then handler s' else (Raises e', s')
    | r => r
    end.

(** [for x in xs: body x]. *)
Fixpoint for_each {S A} (xs : list A) (body : A -> M S unit) : M S unit :=
  match xs with
  | [] => mret tt
  | x :: rest => body x;; for_each rest body
  end.

(** [list.remove(x)]: drops the first element equal to [x]; [None] stands
    for the [ValueError] raised when there is none. *)
Fixpoint list_remove {A} `{EqDecision A} (x : A) (l : list A) : option (list A) :=
  match l with
  | [] => None
  | y :: rest =>
      if decide (y = x) then Some rest
      else match list_remove x rest with
           | Some rest' => Some (y :: rest')
           | None => None
           end
  end.

(** ** Python's [dict], keys in insertion order

    The entries in the order in which their keys were first inserted.  A
    [dict] holds no key twice: [d[key] = value] replaces the value of a key
    that is present, where it stands, and [del d[key]] leaves no entry of
    the key. *)
Definition dict (V : Type) : Type := list (string * V).

Section Dict.
Context {V : Type}.

(** [d[key]]; [None] stands for [KeyError]. *)
Fixpoint dict_getitem (key : string) (d : dict V) : option V :=
  match d with
  | [] => None
  | (k, v) :: rest => if decide (k = key) then Some v else dict_getitem key rest
  end.

(** [d[key] = value]. *)
Fixpoint dict_setitem (key : string) (value : V) (d : dict V) : dict V :=
  match d with
  | [] => [(key, value)]
  | (k, v) :: rest =>
      if decide (k = key) then (key, value) :: rest
      else (k, v) :: dict_setitem key value rest
  end.

(** [del d[key]], for a key that is present. *)
Definition dict_delitem (key : string) (d : dict V) : dict V :=
  filter (fun kv : string * V => kv.1 <> key) (d : list (string * V)).

(** [list(d)]: the keys, in order. *)
Definition dict_keys (d : dict V) : list string :=
  (d : list (string * V)).*1.

Global Instance dict_lookup : Lookup string V (dict V) := dict_getitem.
Global Instance dict_insert : Insert string V (dict V) := dict_setitem.
Global Instance dict_delete : Delete string (dict V) := dict_delitem.
Global Instance dict_empty : Empty (dict V) := [].
Global Instance dict_singleton : SingletonM string V (dict V) :=
  fun key value => [(key, value)].

End Dict.

(** Python's [==] between containers: a [dict] and a [list] are never equal,
    whatever they hold; two dicts are equal when they bind the same keys to
    the same values, in any order. *)
Inductive container (V : Type) : Type :=
  | Dict (d : dict V)
  | List (l : list V).
Arguments Dict {V} d.
Arguments List {V} l.

Definition py_eq {V} `{EqDecision V} (a b : container V) : bool :=
  match a, b with
  | Dict d1, Dict d2 =>
      bool_decide (length d1 = length d2)
      && forallb (fun kv => bool_decide (d2 !! kv.1 = Some kv.2)) d1
  | List l1, List l2 => bool_decide (l1 = l2)
  | _, _ => false
  end.

(** ** [SakuyaEngine/math.py] *)

Module Math.
Local Open Scope float_scope.

(** Python's [float] is the binary64 format of IEEE 754, here Rocq's
    primitive [float]: [+], [-], [*] and [/] round to nearest, ties to
    even, [<], [<=] and [==] are false on a NaN. *)

(** [vector2]: a [pygame.Vector2] or a pair of floats, unpacked as [x, y]. *)
Definition vector2 : Type := float * float.

(** What [move_toward] asks of its arguments: [-], [+], [abs], [<], [<=]
    and a comparison with the literal [0].  Python's [int] (unbounded,
    exact) and [float] both qualify. *)
Class Number (A : Type) : Type := {
  literal_0 : A;
  __add__ : A -> A -> A;
  __sub__ : A -> A -> A;
  __abs__ : A -> A;
  __lt__ : A -> A -> bool;
  __le__ : A -> A -> bool
}.

Global Instance py_int : Number Z := {|
  literal_0 := 0%Z;
  __add__ := Z.add; __sub__ := Z.sub; __abs__ := Z.abs;
  __lt__ := Z.ltb; __le__ := Z.leb
|}.

Global Instance py_float : Number float := {|
  literal_0 := 0;
  __add__ := PrimFloat.add; __sub__ := PrimFloat.sub; __abs__ := PrimFloat.abs;
  __lt__ := PrimFloat.ltb; __le__ := PrimFloat.leb
|}.

(** [a > b] holds when [b < a] does, for both. *)
Definition __gt__ {A} `{Number A} (a b : A) : bool := __lt__ b a.

Local Notation "a >? b" := (b <? a) (at level 70, only parsing) : float_scope.

(** [move_toward]: [Returns (Some v)] is a returned number, [Returns None]
    is the fall-through past the last [if] (Python's implicit [None]). *)
Definition move_toward {A} `{Number A} (origin target speed : A)
  : outcome (option A) :=
  if __lt__ speed literal_0 then Raises NegativeSpeedError
  else if __le__ (__abs__ (__sub__ target origin)) speed
    then Returns (Some target)
  else if __gt__ (__sub__ target origin) speed
    then Returns (Some (__add__ origin speed))
  else if __lt__ (__sub__ target origin) speed
    then Returns (Some (__sub__ origin speed))
  else Returns None.

(** The caller's loop asked for by the docstring ("Must put in a loop until
    it's reach its goal"): [n] successive calls [x = move_toward(x, target,
    speed)] starting from [origin].  Feeding a [None] back raises
    [TypeError] at [target - origin]. *)
Fixpoint move_toward_loop {A} `{Number A} (n : nat) (origin target speed : A)
  : outcome (option A) :=
  match n with
  | O => Returns (Some origin)
  | S k =>
      match move_toward_loop k origin target speed with
      | Returns (Some x) => move_toward x target speed
      | Returns None => Raises TypeError
      | Raises e => Raises e
      end
  end.

(** The three quantities [eval_segment_intersection] computes. *)
Definition segment_dem (point1 point2 point3 point4 : vector2) : float :=
  let '(x1, y1) := point1 in
  let '(x2, y2) := point2 in
  let '(x3, y3) := point3 in
  let '(x4, y4) := point4 in
  (x1 - x2) * (y3 - y4) - (y1 - y2) * (x3 - x4).

Definition segment_t (point1 point2 point3 point4 : vector2) : float :=
  let '(x1, y1) := point1 in
  let '(x3, y3) := point3 in
  let '(x4, y4) := point4 in
  ((x1 - x3) * (y3 - y4) - (y1 - y3) * (x3 - x4))
  / segment_dem point1 point2 point3 point4.

Definition segment_u (point1 point2 point3 point4 : vector2) : float :=
  let '(x1, y1) := point1 in
  let '(x2, y2) := point2 in
  let '(x3, y3) := point3 in
  ((x1 - x3) * (y1 - y2) - (y1 - y3) * (x1 - x2))
  / segment_dem point1 point2 point3 point4.

(** [eval_segment_intersection].  The two divisions come after the test
    [dem == 0], so neither raises [ZeroDivisionError]: their divisor is not
    a zero (it may be a NaN, and then so are [t] and [u]). *)
Definition eval_segment_intersection
    (point1 point2 point3 point4 : vector2) : vector2 :=
  let '(x1, y1) := point1 in
  let '(x2, y2) := point2 in
  let '(x3, y3) := point3 in
  let '(x4, y4) := point4 in
  let dem := (x1 - x2) * (y3 - y4) - (y1 - y2) * (x3 - x4) in
  if dem =? 0 then point2
  else
    let t := (x1 - x3) * (y3 - y4) - (y1 - y3) * (x3 - x4) in
    let u := (x1 - x3) * (y1 - y2) - (y1 - y3) * (x1 - x2) in
    let t := t / dem in
    let u := u / dem in
    if (0 <? t) && (t <? 1) && ((0 <? u) && (u <? 1))
    then (x3 + u * (x4 - x3), y3 + u * (y4 - y3))
    else point2.

(** [x ** 2] on a float: the square, except that a finite [x] whose square
    is out of range raises [OverflowError] (a NaN stays a NaN, an infinity
    gives [inf]).  Python hands [|x|] to the C library's [pow(., 2.0)],
    which is taken to return the correctly rounded square. *)
Definition pow2 (x : float) : outcome float :=
  let r := x * x in
  if is_infinity r && negb (is_infinity x) then Raises OverflowError
  else Returns r.

(** [math.sqrt]: [ValueError] below zero (also for [-inf]); [-0.0], [inf]
    and a NaN are returned as they are. *)
Definition math_sqrt (x : float) : outcome float :=
  if x <? 0 then Raises ValueError else Returns (sqrt x).

(** The two lengths [raycast] takes: of the whole ray, and from its start
    to a point [c]. *)
Definition line_length (coord1 coord2 : vector2) : outcome float :=
  let '(x1, y1) := coord1 in
  let '(x2, y2) := coord2 in
  a ← pow2 (x2 - x1); b ← pow2 (y2 - y1); math_sqrt (a + b).

Definition c_length (coord1 c : vector2) : outcome float :=
  let '(x1, y1) := coord1 in
  a ← pow2 (x1 - fst c); b ← pow2 (y1 - snd c); math_sqrt (a + b).

(** One turn of the [for wall in walls] loop of [raycast], on the pair
    [(highest_point, sort_point_length)]. *)
Definition raycast_step (coord1 coord2 : vector2)
    (acc : vector2 * float) (wall : vector2 * vector2)
  : outcome (vector2 * float) :=
  let '(highest_point, sort_point_length) := acc in
  let c := eval_segment_intersection coord1 coord2 (fst wall) (snd wall) in
  c_length ← c_length coord1 c;
  if sort_point_length >? c_length
  then Returns (c, c_length)
  else Returns (highest_point, sort_point_length).

Fixpoint raycast_loop (coord1 coord2 : vector2)
    (walls : list (vector2 * vector2)) (acc : vector2 * float)
  : outcome (vector2 * float) :=
  match walls with
  | [] => Returns acc
  | wall :: rest =>
      acc' ← raycast_step coord1 coord2 acc wall;
      raycast_loop coord1 coord2 rest acc'
  end.

Definition raycast (coord1 coord2 : vector2)
    (walls : list (vector2 * vector2)) : outcome vector2 :=
  line_length ← line_length coord1 coord2;
  acc ← raycast_loop coord1 coord2 walls (coord2, line_length);
  Returns (fst acc).

(** Vocabulary of the statements about [raycast]: whether the wall passes
    the test of [eval_segment_intersection], and the point computed for
    it. *)
Definition intersects (origin target : vector2) (wall : vector2 * vector2)
  : bool :=
  let t := segment_t origin target (fst wall) (snd wall) in
  let u := segment_u origin target (fst wall) (snd wall) in
  negb (segment_dem origin target (fst wall) (snd wall) =? 0)
  && ((0 <? t) && (t <? 1) && ((0 <? u) && (u <? 1))).

Definition hit_point (origin target : vector2) (wall : vector2 * vector2)
  : vector2 :=
  eval_segment_intersection origin target (fst wall) (snd wall).

End Math.

(** ** [entity.py] is not among the sources: the interface [scene.py] uses *)

Module Entity.

(** [pygame.Rect]: integer position and size. *)
Record Rect : Set := { x : Z; y : Z; w : Z; h : Z }.

(** Modelled from the spec: [pygame.Rect.colliderect] (pygame is not among
    the sources).  Two rectangles overlap iff their x-ranges and their
    y-ranges both overlap; rectangles that only share an edge do not. *)
Definition colliderect (a b : Rect) : bool :=
  ((x a <? x b + w b) && (x b <? x a + w a)
   && ((y a <? y b + h b) && (y b <? y a + h a)))%Z.

(** Modelled from the spec: [Entity] of [entity.py], which is not among
    the sources, as far as [Scene] reads and calls it.  [update delta_time]
    is the entity's own hook, given by each subclass: it acts on the entity
    it is called on, and sets [_is_destroyed] when the entity destroys
    itself. *)
Class Entity (E : Type) : Type := {
  name : E -> string;
  hitbox : E -> Rect;
  _is_destroyed : E -> bool;
  update : float -> E -> E
}.

End Entity.

(** ** [scene.py] *)

Module Scene.

(** A Python class, as far as the engine looks at it: its [__name__]. *)
Record class : Set := { __name__ : string }.

Global Instance class_eq_dec : EqDecision class.
Proof. solve_decision. Defined.

(** Keyword arguments, forwarded as they are. *)
Definition kwargs : Set := list (string * string).

(** References to entity objects, and the store that holds the objects:
    two occurrences of one reference are one entity. *)
Definition ref : Set := nat.
Definition store (E : Type) : Type := ref -> E.

(** An instance of [Scene] or of a subclass: [type], its class, and [oid],
    its identity, besides the attributes [__init__] sets. *)
Record Scene : Set := {
  type : class;
  oid : nat;
  is_paused : bool;
  entities : list ref;
  kwargs_of : kwargs
}.

Global Instance Scene_eq_dec : EqDecision Scene.
Proof. solve_decision. Defined.

(** The base class itself. *)
Definition Scene_class : class := {| __name__ := "Scene" |}.

(** [cls(client, **kwargs)] for [cls] the class [Scene] or a subclass. *)
Definition __init__ (cls : class) (new_oid : nat) (kw : kwargs) : Scene :=
  {| type := cls; oid := new_oid; is_paused := true; entities := [];
     kwargs_of := kw |}.

(** The [name] property returns [__class__.__name__].  Inside a method,
    [__class__] is the class whose body holds the method (the cell that
    [super()] reads), here [Scene]; it is not [type(self)]. *)
Definition name (self : Scene) : string := __name__ Scene_class.

Definition set_entities (l : list ref) (self : Scene) : Scene :=
  {| type := type self; oid := oid self; is_paused := is_paused self;
     entities := l; kwargs_of := kwargs_of self |}.

Section Entities.
Context {E : Type} `{Entity.Entity E}.

Definition find_entities_by_name (self : Scene) (st : store E) (n : string)
  : list ref :=
  filter (fun o => Entity.name (st o) = n) (entities self).

Definition test_collisions (self : Scene) (st : store E) (entity : ref)
  : outcome (list ref) :=
  match list_remove entity (entities self) with
  | None => Raises EntityNotInScene
  | Some candidates =>
      Returns
        (filter (fun e => Entity.colliderect (Entity.hitbox (st entity))
                                             (Entity.hitbox (st e)) = true)
                candidates)
  end.

(** The loop of [advance_frame] over the snapshot [self.entities[:]], on
    the store and the live list. *)
Fixpoint advance_loop (delta_time : float) (snapshot : list ref)
  : M (store E * Scene) unit :=
  match snapshot with
  | [] => mret tt
  | object :: rest =>
      modify (fun '(st, self) =>
                (alter (Entity.update delta_time) object st, self));;
      '(st, self) ← get;
      (if Entity._is_destroyed (st object)
       then match list_remove object (entities self) with
            | Some l => modify (fun '(st, self) => (st, set_entities l self))
            | None => raise ValueError
            end
       else mret tt);;
      advance_loop delta_time rest
  end.

Definition advance_frame (delta_time : float) : M (store E * Scene) unit :=
  '(_, self) ← get;
  advance_loop delta_time (entities self).

End Entities.

(** Calls of the hooks [on_awake] and [on_delete], which a subclass
    overrides ([Scene]'s own do nothing), as the earlier client makes
    them. *)
Inductive hook_call : Set :=
  | on_awake (self : Scene) (kw : kwargs)
  | on_delete (self : Scene) (kw : kwargs).

(** [self.update()], as the earlier client calls it: the parameter
    [delta_time] of [update(self, delta_time, **kwargs)] is required and
    not given, so the call raises [TypeError] before the body runs.  A
    subclass that overrides [update] is taken to keep that signature. *)
Definition update_without_delta_time (self : Scene) : outcome unit :=
  Raises TypeError.

(** An object a name can be bound to in the registry: a class or a scene. *)
Inductive object : Set :=
  | Class (c : class)
  | Instance (s : Scene).

Record SceneManager : Type := {
  registered_scenes : gmap string object
}.

Definition SceneManager__init__ : SceneManager :=
  {| registered_scenes := ∅ |}.

(** [register_scene(scene)]: [scene] is a class; [new_oid] is the identity
    of the instance [scene(self.client)] creates. *)
Definition register_scene (scene : class) (new_oid : nat)
    (self : SceneManager) : SceneManager :=
  let instance := __init__ scene new_oid [] in
  {| registered_scenes :=
       <[__name__ scene := Instance instance]> (registered_scenes self) |}.

Definition get_scene (self : SceneManager) (scene_name : string)
  : outcome object :=
  match registered_scenes self !! scene_name with
  | Some o => Returns o
  | None => Raises KeyError
  end.

End Scene.

(** ** [SakuyaEngine/scene.py] is not among the sources: what
    [SakuyaEngine/client.py] reads and calls of it *)

Module EngineScene.

(** Modelled from the spec: a scene of the package's [scene] module, which
    is not among the sources, as far as the client reads it: "name: string
    (derived from its type), paused: bool".  [type] is the scene's class
    and [oid] its identity. *)
Record Scene : Set := {
  type : Scene.class;
  oid : nat;
  paused : bool
}.

Global Instance Scene_eq_dec : EqDecision Scene.
Proof. solve_decision. Defined.

(** Modelled from the spec: [cls(client)], a scene "Instantiated(paused)". *)
Definition __init__ (cls : Scene.class) (new_oid : nat) : Scene :=
  {| type := cls; oid := new_oid; paused := true |}.

(** Modelled from the spec: the [name] of a scene, "derived from its type",
    the "class/type name". *)
Definition name (self : Scene) : string := Scene.__name__ (type self).

(** Modelled from the spec: the hooks, "Scene.on_awake/on_delete/
    update(**kwargs) as override points", as the client calls them. *)
Inductive hook_call : Set :=
  | on_awake (self : Scene) (kw : Scene.kwargs)
  | on_delete (self : Scene) (kw : Scene.kwargs)
  | update (self : Scene).

(** Modelled from the spec: the scene manager, a "pure registry" that
    "stores a factory/prototype keyed by a derived name (class/type
    name)".  The client calls what [get_scene] returns, so the prototype is
    the class. *)
Record SceneManager : Type := {
  registered_scenes : gmap string Scene.class
}.

Definition SceneManager__init__ : SceneManager :=
  {| registered_scenes := ∅ |}.

(** Modelled from the spec: "registerScene(prototypeFactory) stores a
    factory/prototype keyed by a derived name (class/type name)". *)
Definition register_scene (scene : Scene.class) (self : SceneManager)
  : SceneManager :=
  {| registered_scenes :=
       <[Scene.__name__ scene := scene]> (registered_scenes self) |}.

(** Modelled from the spec: "getScene(name) returns the prototype - fails
    with KeyNotFound when absent", Python's [KeyError], which
    [replace_scene] catches. *)
Definition get_scene (self : SceneManager) (scene_name : string)
  : outcome Scene.class :=
  match registered_scenes self !! scene_name with
  | Some prototype => Returns prototype
  | None => Raises KeyError
  end.

End EngineScene.

(** ** [SakuyaEngine/client.py] *)

Module Client.

(** What a run does that can be seen from outside, in order: hook calls,
    the two pygame calls that frame an iteration, and the message of the
    removal loop.  A hook call is recorded; what an override does besides
    is not part of the engine. *)
Inductive event : Set :=
  | Hook (c : EngineScene.hook_call)
  | pygame_event_get
  | pygame_display_update
  | print_missing_scene (s : string).

(** The attributes of [Client] that scenes and the loop go through;
    [next_oid] numbers the objects created so far and [trace] is the record
    of events. *)
Record Client : Type := {
  is_running : bool;
  running_scenes : dict (EngineScene.Scene * Scene.kwargs);
  deleted_scenes_queue : list string;
  scene_manager : EngineScene.SceneManager;
  next_oid : nat;
  trace : list event
}.

Definition __init__ : Client :=
  {| is_running := true; running_scenes := ∅; deleted_scenes_queue := [];
     scene_manager := EngineScene.SceneManager__init__; next_oid := 0;
     trace := [] |}.

Definition set_running_scenes
    (d : dict (EngineScene.Scene * Scene.kwargs)) (self : Client) : Client :=
  {| is_running := is_running self; running_scenes := d;
     deleted_scenes_queue := deleted_scenes_queue self;
     scene_manager := scene_manager self; next_oid := next_oid self;
     trace := trace self |}.

Definition set_deleted_scenes_queue (q : list string) (self : Client) : Client :=
  {| is_running := is_running self; running_scenes := running_scenes self;
     deleted_scenes_queue := q;
     scene_manager := scene_manager self; next_oid := next_oid self;
     trace := trace self |}.

Definition set_scene_manager (m : EngineScene.SceneManager) (self : Client)
  : Client :=
  {| is_running := is_running self; running_scenes := running_scenes self;
     deleted_scenes_queue := deleted_scenes_queue self;
     scene_manager := m; next_oid := next_oid self;
     trace := trace self |}.

Definition set_next_oid (n : nat) (self : Client) : Client :=
  {| is_running := is_running self; running_scenes := running_scenes self;
     deleted_scenes_queue := deleted_scenes_queue self;
     scene_manager := scene_manager self; next_oid := n;
     trace := trace self |}.

Definition set_trace (t : list event) (self : Client) : Client :=
  {| is_running := is_running self; running_scenes := running_scenes self;
     deleted_scenes_queue := deleted_scenes_queue self;
     scene_manager := scene_manager self; next_oid := next_oid self;
     trace := t |}.

Definition emit (e : event) : M Client unit :=
  modify (fun self => set_trace (trace self ++ [e]) self).

Definition fresh_oid : M Client nat :=
  self ← get;
  modify (set_next_oid (S (next_oid self)));;
  mret (next_oid self).

Definition lift {A} (r : outcome A) : M Client A := fun self => (r, self).

(** [copy.copy] of a class is the class itself. *)
Definition copy (cls : Scene.class) : Scene.class := cls.

(** [cls(self)]: calling a class builds a new instance of it. *)
Definition call (cls : Scene.class) : M Client EngineScene.Scene :=
  n ← fresh_oid; mret (EngineScene.__init__ cls n).

(** [self.running_scenes[key]]. *)
Definition running_scenes_getitem (key : string)
  : M Client (EngineScene.Scene * Scene.kwargs) :=
  self ← get;
  match running_scenes self !! key with
  | Some entry => mret entry
  | None => raise KeyError
  end.

(** [del self.running_scenes[key]]. *)
Definition running_scenes_delitem (key : string) : M Client unit :=
  self ← get;
  match running_scenes self !! key with
  | Some _ => modify (set_running_scenes (delete key (running_scenes self)))
  | None => raise KeyError
  end.

Definition add_scene (scene_name : string) (kw : Scene.kwargs) : M Client unit :=
  self ← get;
  registered ← lift (EngineScene.get_scene (scene_manager self) scene_name);
  scene ← call (copy registered);
  emit (Hook (EngineScene.on_awake scene kw));;
  self ← get;
  modify (set_running_scenes
            (<[EngineScene.name scene := (scene, kw)]> (running_scenes self))).

Definition remove_scene (scene_name : string) (kw : Scene.kwargs)
  : M Client unit :=
  try_except
    (entry ← running_scenes_getitem scene_name;
     let scene := fst entry in
     emit (Hook (EngineScene.on_delete scene kw));;
     self ← get;
     modify (set_deleted_scenes_queue
               (deleted_scenes_queue self ++ [EngineScene.name scene])))
    KeyError
    (raise SceneNotActiveError).

Definition replace_scene (old_scene_name new_scene_name : string)
    (kw : Scene.kwargs) : M Client unit :=
  try_except
    (remove_scene old_scene_name [];;
     add_scene new_scene_name kw)
    KeyError
    (raise SceneNotActiveError).

(** "Update all scenes": over the keys of a copy of the table, in their
    order. *)
Definition update_scenes : M Client unit :=
  self ← get;
  for_each (dict_keys (running_scenes self)) (fun s =>
    entry ← running_scenes_getitem s;
    let s := fst entry in
    if negb (EngineScene.paused s) then emit (Hook (EngineScene.update s))
    else mret tt).

(** "Delete scenes in queue": over a copy of the queue. *)
Definition delete_scenes_in_queue : M Client unit :=
  self ← get;
  for_each (deleted_scenes_queue self) (fun s =>
    try_except
      (self ← get;
       match list_remove s (deleted_scenes_queue self) with
       | Some q => modify (set_deleted_scenes_queue q)
       | None => raise ValueError
       end;;
       running_scenes_delitem s)
      KeyError
      (emit (print_missing_scene s))).

(** The body of [while self.is_running] in [main].  Timing, resizing,
    drawing and the caption are calls to pygame that leave the attributes
    above alone. *)
Definition main_iteration : M Client unit :=
  self ← get;
  (if py_eq (Dict (running_scenes self)) (List [])
   then raise NoActiveSceneError
   else mret tt);;
  emit pygame_event_get;;
  update_scenes;;
  delete_scenes_in_queue;;
  emit pygame_display_update.

(** [main], for at most [fuel] turns of its loop. *)
Fixpoint main (fuel : nat) : M Client unit :=
  match fuel with
  | O => mret tt
  | S k =>
      self ← get;
      if is_running self then main_iteration;; main k else mret tt
  end.

End Client.

(** ** [client.py], the earlier client

    Its scenes and its scene manager are those of [scene.py]. *)

Module OldClient.

Inductive event : Set :=
  | Hook (c : Scene.hook_call)
  | pygame_event_get
  | pygame_display_flip.

Record Client : Type := {
  is_running : bool;
  keep_aspect_ratio : bool;
  running_scenes : dict (Scene.Scene * Scene.kwargs);
  scene_manager : Scene.SceneManager;
  trace : list event
}.

Definition __init__ (keep_aspect_ratio : bool) : Client :=
  {| is_running := true; keep_aspect_ratio := keep_aspect_ratio;
     running_scenes := ∅; scene_manager := Scene.SceneManager__init__;
     trace := [] |}.

Definition set_running_scenes
    (d : dict (Scene.Scene * Scene.kwargs)) (self : Client) : Client :=
  {| is_running := is_running self;
     keep_aspect_ratio := keep_aspect_ratio self; running_scenes := d;
     scene_manager := scene_manager self; trace := trace self |}.

Definition set_trace (t : list event) (self : Client) : Client :=
  {| is_running := is_running self;
     keep_aspect_ratio := keep_aspect_ratio self;
     running_scenes := running_scenes self;
     scene_manager := scene_manager self; trace := t |}.

Definition emit (e : event) : M Client unit :=
  modify (fun self => set_trace (trace self ++ [e]) self).

Definition lift {A} (r : outcome A) : M Client A := fun self => (r, self).

(** [self.scene_manager.get_scene(scene_name)] followed by a method call on
    the result, which needs an instance. *)
Definition get_scene_instance (scene_name : string) : M Client Scene.Scene :=
  self ← get;
  match Scene.get_scene (scene_manager self) scene_name with
  | Returns (Scene.Instance scene) => mret scene
  | Returns (Scene.Class _) => raise TypeError
  | Raises e => raise e
  end.

(** [self.running_scenes[key]]. *)
Definition running_scenes_getitem (key : string)
  : M Client (Scene.Scene * Scene.kwargs) :=
  self ← get;
  match running_scenes self !! key with
  | Some entry => mret entry
  | None => raise KeyError
  end.

Definition add_scene (scene_name : string) (kw : Scene.kwargs) : M Client unit :=
  scene ← get_scene_instance scene_name;
  emit (Hook (Scene.on_awake scene kw));;
  self ← get;
  modify (set_running_scenes
            (<[Scene.name scene := (scene, kw)]> (running_scenes self))).

Definition remove_scene (scene_name : string) (kw : Scene.kwargs)
  : M Client unit :=
  scene ← get_scene_instance scene_name;
  emit (Hook (Scene.on_delete scene kw));;
  self ← get;
  match running_scenes self !! Scene.name scene with
  | Some _ =>
      modify (set_running_scenes
                (delete (Scene.name scene) (running_scenes self)))
  | None => raise KeyError
  end.

(** The body of [while(self.is_running)] in [main]: the guard, the poll
    for resize events, and the loop over the keys of the table, which
    calls [update()] on the scenes whose [is_paused] is set. *)
Definition main_iteration : M Client unit :=
  self ← get;
  (if py_eq (Dict (running_scenes self)) (List [])
   then raise NoActiveSceneError
   else mret tt);;
  (if keep_aspect_ratio self then emit pygame_event_get else mret tt);;
  for_each (dict_keys (running_scenes self)) (fun s =>
    entry ← running_scenes_getitem s;
    let s := fst entry in
    if Scene.is_paused s then lift (Scene.update_without_delta_time s)
    else mret tt);;
  emit pygame_display_flip.

Fixpoint main (fuel : nat) : M Client unit :=
  match fuel with
  | O => mret tt
  | S k =>
      self ← get;
      if is_running self then main_iteration;; main k else mret tt
  end.

End OldClient.

(** ** Concrete data for the examples *)

Module Examples.

(** An entity that ages by one on every update and destroys itself on
    reaching age 2. *)
Record Mortal : Set := {
  mortal_name : string;
  mortal_hitbox : Entity.Rect;
  mortal_age : nat;
  mortal_destroyed : bool
}.

Global Instance Mortal_entity : Entity.Entity Mortal := {|
  Entity.name := mortal_name;
  Entity.hitbox := mortal_hitbox;
  Entity._is_destroyed := mortal_destroyed;
  Entity.update := fun _ m =>
    {| mortal_name := mortal_name m; mortal_hitbox := mortal_hitbox m;
       mortal_age := S (mortal_age m);
       mortal_destroyed :=
         mortal_destroyed m || (2 <=? S (mortal_age m))%nat |}
|}.

Definition newborn : Mortal :=
  {| mortal_name := "bullet";
     mortal_hitbox :=
       {| Entity.x := 0; Entity.y := 0; Entity.w := 10; Entity.h := 10 |};
     mortal_age := 0; mortal_destroyed := false |}.

Definition elder : Mortal :=
  {| mortal_name := "bullet";
     mortal_hitbox :=
       {| Entity.x := 5; Entity.y := 5; Entity.w := 10; Entity.h := 10 |};
     mortal_age := 1; mortal_destroyed := false |}.

(** Object 1 is an [elder], every other object a [newborn]. *)
Definition nursery : Scene.store Mortal :=
  fun o => if decide (o = 1%nat) then elder else newborn.

(** A scene holding the references [l]. *)
Definition scene_with (l : list Scene.ref) : Scene.Scene :=
  Scene.set_entities l (Scene.__init__ Scene.Scene_class 0 []).

(** A subclass of [Scene]. *)
Definition Title : Scene.class := {| Scene.__name__ := "Title" |}.

(** A second subclass. *)
Definition Menu : Scene.class := {| Scene.__name__ := "Menu" |}.

(** A client whose scene manager registered [Title]. *)
Definition client_with_Title : Client.Client :=
  Client.set_scene_manager
    (EngineScene.register_scene Title EngineScene.SceneManager__init__)
    Client.__init__.

(** A client with one running scene, keyed by its [name]. *)
Definition client_running_Title : Client.Client :=
  Client.set_running_scenes
    {[EngineScene.name (EngineScene.__init__ Title 0) :=
        (EngineScene.__init__ Title 0, [])]}
    (Client.set_next_oid 1 Client.__init__).

(** An earlier client whose scene manager registered [Title] and [Menu]
    with [register_scene], in this order. *)
Definition old_client_with_scenes : OldClient.Client :=
  {| OldClient.is_running := true; OldClient.keep_aspect_ratio := true;
     OldClient.running_scenes := ∅;
     OldClient.scene_manager :=
       Scene.register_scene Menu 1
         (Scene.register_scene Title 0 Scene.SceneManager__init__);
     OldClient.trace := [] |}.

End Examples.

(** ** Vocabulary of the statements *)

(** The state a method leaves behind, whether it returned or raised. *)
Definition state_after {S A} (m : M S A) (s : S) : S := snd (m s).

(** Where [k] calls of [move_toward] on integers arrive, in closed form. *)
Definition approach (k : nat) (origin target speed : Z) : Z :=
  if (Z.abs (target - origin) <=? Z.of_nat k * speed)%Z then target
  else if (origin <=? target)%Z then (origin + Z.of_nat k * speed)%Z
  else (origin - Z.of_nat k * speed)%Z.

(** [ceil(a / b)] for integers [a] and [b]. *)
Definition ceil_quotient (a b : Z) : Z := Qceiling (inject_Z a / inject_Z b).

(** ** Exact values, for comparison with what the code computes *)

(** The number a finite float stands for ([0] for an infinity or a NaN). *)
Definition exact (x : float) : Q :=
  match Prim2SF x with
  | S754_finite s m e =>
      ((if s then -1 else 1) * inject_Z (Z.pos m) * 2 ^ e)%Q
  | _ => 0%Q
  end.

(** Following the spec's words: the determinant [dem] and the two
    parametric values [t] and [u] of [segmentIntersect], as numbers,
    without rounding. *)
Definition exact_dem (p1 p2 p3 p4 : Math.vector2) : Q :=
  ((exact (fst p1) - exact (fst p2)) * (exact (snd p3) - exact (snd p4))
   - (exact (snd p1) - exact (snd p2)) * (exact (fst p3) - exact (fst p4)))%Q.

Definition exact_t (p1 p2 p3 p4 : Math.vector2) : Q :=
  (((exact (fst p1) - exact (fst p3)) * (exact (snd p3) - exact (snd p4))
    - (exact (snd p1) - exact (snd p3)) * (exact (fst p3) - exact (fst p4)))
   / exact_dem p1 p2 p3 p4)%Q.

Definition exact_u (p1 p2 p3 p4 : Math.vector2) : Q :=
  (((exact (fst p1) - exact (fst p3)) * (exact (snd p1) - exact (snd p2))
    - (exact (snd p1) - exact (snd p3)) * (exact (fst p1) - exact (fst p2)))
   / exact_dem p1 p2 p3 p4)%Q.

(** Following the spec's words: the Euclidean distance, squared, as a
    number, without rounding. *)
Definition exact_distance2 (p q : Math.vector2) : Q :=
  ((exact (fst p) - exact (fst q)) ^ 2
   + (exact (snd p) - exact (snd q)) ^ 2)%Q.

(** What [raycast] returns, [r], is the closest hit: either the target,
    with the length of the ray, or the point computed for a wall that
    passes the test, at a smaller length; and no wall's point lies at a
    length below [r]'s.  Lengths are those the code computes. *)
Definition closest_hit (origin target : Math.vector2)
    (walls : list (Math.vector2 * Math.vector2)) (r : Math.vector2) : Prop :=
  exists d,
    ((r = target /\ Math.line_length origin target = Returns d) \/
     (exists wall l0,
        wall ∈ walls /\ Math.intersects origin target wall = true /\
        r = Math.hit_point origin target wall /\
        Math.c_length origin r = Returns d /\
        Math.line_length origin target = Returns l0 /\
        (d <? l0)%float = true)) /\
    forall wall l,
      wall ∈ walls ->
      Math.c_length origin (Math.hit_point origin target wall) = Returns l ->
      (l <? d)%float = false.

(** Not below zero: a NaN, a zero of either sign, or a positive number. *)
Definition not_negative (x : spec_float) : Prop :=
  match x with
  | S754_infinity s | S754_finite s _ _ => s = false
  | _ => True
  end.

(** What one turn of "Delete scenes in queue" does to the table and the
    trace, the queue apart. *)
Definition after_removal (self : Client.Client) (s : string) : Client.Client :=
  match Client.running_scenes self !! s with
  | Some _ =>
      Client.set_running_scenes (delete s (Client.running_scenes self)) self
  | None =>
      Client.set_trace
        (Client.trace self ++ [Client.print_missing_scene s]) self
  end.

Section SceneVocabulary.
Context {E : Type} `{Entity.Entity E}.

(** The store after [update(delta_time)] was called on each reference of
    [snapshot], in order. *)
Definition updated (delta_time : float) (snapshot : list Scene.ref)
    (st : Scene.store E) : Scene.store E :=
  foldl (fun st o => alter (Entity.update delta_time) o st) st snapshot.

(** [advance_frame] returns, has updated the snapshot, and leaves in the
    scene exactly the entities whose flag is not set, in their order. *)
Definition advance_frame_removes_destroyed (delta_time : float)
    (st : Scene.store E) (self : Scene.Scene) : Prop :=
  exists st',
    Scene.advance_frame delta_time (st, self)
    = (Returns tt,
       (st', Scene.set_entities
               (filter (fun o => Entity._is_destroyed (st' o) = false)
                       (Scene.entities self)) self)) /\
    forall o, st' o = updated delta_time (Scene.entities self) st o.

(** [test_collisions] raises exactly for a non-member, and otherwise
    returns the other entities whose hitbox overlaps the queried one's. *)
Definition collisions_exclude_self (self : Scene.Scene) (st : Scene.store E)
    (e : Scene.ref) : Prop :=
  (e ∉ Scene.entities self <->
     Scene.test_collisions self st e = Raises EntityNotInScene) /\
  (e ∈ Scene.entities self ->
     Scene.test_collisions self st e
     = Returns (filter (fun o => o <> e /\
                          Entity.colliderect (Entity.hitbox (st e))
                                             (Entity.hitbox (st o)) = true)
                       (Scene.entities self))).

End SceneVocabulary.

(** [register_scene] on each class of a list, in order; each pair gives the
    class and the identity of its instance. *)
Definition register_all (classes : list (Scene.class * nat))
    (m : Scene.SceneManager) : Scene.SceneManager :=
  foldl (fun m cn => Scene.register_scene (fst cn) (snd cn) m) m classes.

(** A scene of the table has its pause flag set. *)
Definition some_scene_paused (table : dict (Scene.Scene * Scene.kwargs))
  : Prop :=
  exists key scene kw,
    table !! key = Some (scene, kw) /\ Scene.is_paused scene = true.

(** * Theorems *)

(** ** Binary64 arithmetic: order, signs and symmetry *)

Section FloatOrder.
Local Open Scope float_scope.

Lemma Pos_compare_cont_Eq_refl m : Pos.compare_cont Eq m m = Eq.
Proof. apply Pos.compare_refl. Qed.

Lemma lex_Lt (e1 e2 : Z) (m1 m2 : positive) :
  match (e1 ?= e2)%Z with
  | Lt => Lt | Gt => Gt | Eq => Pos.compare_cont Eq m1 m2
  end = Lt <-> (e1 < e2 \/ (e1 = e2 /\ (m1 < m2)%positive))%Z.
Proof.
  fold (Pos.compare m1 m2).
  destruct (Z.compare_spec e1 e2) as [->|H|H].
  - rewrite Pos.compare_lt_iff. intuition lia.
  - intuition lia.
  - split; [discriminate|lia].
Qed.

Lemma lex_Gt (e1 e2 : Z) (m1 m2 : positive) :
  match (e1 ?= e2)%Z with
  | Lt => Gt | Gt => Lt | Eq => CompOpp (Pos.compare_cont Eq m1 m2)
  end = Lt <-> (e2 < e1 \/ (e1 = e2 /\ (m2 < m1)%positive))%Z.
Proof.
  fold (Pos.compare m1 m2).
  destruct (Z.compare_spec e1 e2) as [->|H|H].
  - rewrite <- Pos.compare_antisym, Pos.compare_lt_iff. intuition lia.
  - split; [discriminate|lia].
  - intuition lia.
Qed.

Lemma SFcompare_Lt_trans x y z :
  SFcompare x y = Some Lt -> SFcompare y z = Some Lt -> SFcompare x z = Some Lt.
Proof.
  destruct x as [[]|[]| |[] mx ex], y as [[]|[]| |[] my ey],
    z as [[]|[]| |[] mz ez]; simpl; try congruence.
  all: intros Hxy Hyz; f_equal.
  all: injection Hxy as Hxy; injection Hyz as Hyz.
  - apply lex_Gt in Hxy, Hyz. apply lex_Gt. lia.
  - apply lex_Lt in Hxy, Hyz. apply lex_Lt. lia.
Qed.

Lemma SFcompare_refl x : SFcompare x x = Some Eq \/ x = S754_nan.
Proof.
  destruct x as [[]|[]| |[] m e]; simpl; auto; left;
    rewrite Z.compare_refl; fold (Pos.compare m m);
    now rewrite Pos.compare_refl.
Qed.

Lemma SFcompare_antisym x y :
  SFcompare y x = option_map CompOpp (SFcompare x y).
Proof.
  destruct x as [[]|[]| |[] mx ex], y as [[]|[]| |[] my ey]; simpl;
    try reflexivity; f_equal.
  all: fold (Pos.compare mx my); fold (Pos.compare my mx).
  all: rewrite (Z.compare_antisym ex ey), (Pos.compare_antisym mx my).
  all: destruct (ex ?= ey)%Z; simpl; try reflexivity.
  all: now destruct (mx ?= my)%positive.
Qed.

Lemma ltb_irrefl x : (x <? x) = false.
Proof.
  rewrite FloatAxioms.ltb_spec. unfold SFltb.
  destruct (SFcompare_refl (Prim2SF x)) as [-> | ->]; reflexivity.
Qed.

Lemma ltb_trans x y z : (x <? y) = true -> (y <? z) = true -> (x <? z) = true.
Proof.
  rewrite !FloatAxioms.ltb_spec. unfold SFltb. intros Hxy Hyz.
  destruct (SFcompare (Prim2SF x) (Prim2SF y)) as [[]|] eqn:Exy; try discriminate.
  destruct (SFcompare (Prim2SF y) (Prim2SF z)) as [[]|] eqn:Eyz; try discriminate.
  now rewrite (SFcompare_Lt_trans _ _ _ Exy Eyz).
Qed.

Lemma ltb_asym x y : (x <? y) = true -> (y <? x) = false.
Proof.
  rewrite !FloatAxioms.ltb_spec. unfold SFltb. rewrite (SFcompare_antisym (Prim2SF x)).
  now destruct (SFcompare (Prim2SF x) (Prim2SF y)) as [[]|].
Qed.

Lemma is_nan_spec x : is_nan x = true <-> Prim2SF x = S754_nan.
Proof.
  unfold is_nan. rewrite FloatAxioms.eqb_spec. unfold SFeqb.
  destruct (SFcompare_refl (Prim2SF x)) as [H | H]; rewrite H.
  - simpl. split; [discriminate|]. intros E. rewrite E in H. discriminate.
  - simpl. tauto.
Qed.

Lemma SFcompare_total x y :
  x <> S754_nan -> y <> S754_nan -> exists c, SFcompare x y = Some c.
Proof.
  destruct x as [[]|[]| |[] mx ex], y as [[]|[]| |[] my ey]; simpl;
    try congruence; eauto.
Qed.

End FloatOrder.

Section FloatSigns.
Local Open Scope float_scope.

Lemma binary_round_aux_sign s m e l :
  match SpecFloat.binary_round_aux prec emax s m e l with
  | S754_zero s' | S754_infinity s' | S754_finite s' _ _ => s' = s
  | S754_nan => True
  end.
Proof.
  unfold SpecFloat.binary_round_aux.
  destruct (SpecFloat.shr_fexp prec emax m e l) as [mrs' e'].
  destruct (SpecFloat.shr_fexp prec emax _ e' SpecFloat.loc_Exact) as [mrs'' e''].
  destruct (SpecFloat.shr_m mrs''); [reflexivity| |exact I].
  now destruct (e'' <=? emax - prec)%Z.
Qed.

Lemma binary_round_sign s m e :
  match SpecFloat.binary_round prec emax s m e with
  | S754_zero s' | S754_infinity s' | S754_finite s' _ _ => s' = s
  | S754_nan => True
  end.
Proof.
  unfold SpecFloat.binary_round.
  destruct (SpecFloat.shl_align m e _) as [mz ez].
  apply binary_round_aux_sign.
Qed.

Lemma square_not_negative x : not_negative (Prim2SF (x * x)).
Proof.
  rewrite mul_spec. unfold SF64mul.
  destruct (Prim2SF x) as [s|s| |s m e]; simpl; try exact I.
  - now destruct s.
  - pose proof (binary_round_aux_sign (xorb s s) (Z.pos (m * m)) (e + e)
                  SpecFloat.loc_Exact) as H.
    destruct (SpecFloat.binary_round_aux _ _ _ _ _ _); simpl; auto;
      rewrite H; now destruct s.
Qed.

Lemma sum_not_negative a b :
  not_negative (Prim2SF a) -> not_negative (Prim2SF b) ->
  not_negative (Prim2SF (a + b)).
Proof.
  rewrite add_spec. unfold SF64add.
  destruct (Prim2SF a) as [sa|sa| |sa ma ea], (Prim2SF b) as [sb|sb| |sb mb eb];
    simpl; intros Ha Hb; subst; try exact I; try reflexivity.
  - now destruct sa, sb.
  - unfold SpecFloat.binary_normalize.
    destruct (SpecFloat.shl_align ma ea _) as [ma' ea'],
             (SpecFloat.shl_align mb eb _) as [mb' eb']. simpl.
    pose proof (binary_round_sign false (ma' + mb') (Z.min ea eb)) as H.
    destruct (SpecFloat.binary_round _ _ _ _ _); simpl; auto.
Qed.

Lemma not_negative_ltb_zero x : not_negative (Prim2SF x) -> (x <? 0) = false.
Proof.
  rewrite FloatAxioms.ltb_spec. unfold SFltb.
  replace (Prim2SF 0) with (S754_zero false) by reflexivity.
  destruct (Prim2SF x) as [s|s| |s m e]; simpl; intros H; subst; reflexivity.
Qed.

End FloatSigns.

Section FloatSymmetry.
Local Open Scope float_scope.

Lemma binary_round_aux_opp s m e l :
  SpecFloat.binary_round_aux prec emax (negb s) m e l
  = SFopp (SpecFloat.binary_round_aux prec emax s m e l).
Proof.
  unfold SpecFloat.binary_round_aux.
  destruct (SpecFloat.shr_fexp prec emax m e l) as [mrs' e'].
  destruct (SpecFloat.shr_fexp prec emax _ e' SpecFloat.loc_Exact) as [mrs'' e''].
  destruct (SpecFloat.shr_m mrs''); [reflexivity| |reflexivity].
  now destruct (e'' <=? emax - prec)%Z.
Qed.

Lemma binary_round_opp s m e :
  SpecFloat.binary_round prec emax (negb s) m e
  = SFopp (SpecFloat.binary_round prec emax s m e).
Proof.
  unfold SpecFloat.binary_round.
  destruct (SpecFloat.shl_align m e _) as [mz ez].
  apply binary_round_aux_opp.
Qed.

Lemma SFabs_opp x : SFabs (SFopp x) = SFabs x.
Proof. now destruct x. Qed.

Lemma binary_normalize_abs_opp m e :
  SFabs (SpecFloat.binary_normalize prec emax (- m) e false)
  = SFabs (SpecFloat.binary_normalize prec emax m e false).
Proof.
  destruct m as [|p|p]; simpl; [reflexivity| |].
  - now rewrite (binary_round_opp false), SFabs_opp.
  - now rewrite (binary_round_opp false), SFabs_opp.
Qed.

Lemma SFabs_sub_sym a b : SFabs (SF64sub a b) = SFabs (SF64sub b a).
Proof.
  unfold SF64sub.
  destruct a as [sa|sa| |sa ma ea], b as [sb|sb| |sb mb eb]; simpl;
    try reflexivity; try (now destruct sa, sb).
  rewrite (Z.min_comm eb ea).
  rewrite <- binary_normalize_abs_opp. f_equal. f_equal. lia.
Qed.

Lemma abs_sub_sym a b : abs (a - b) = abs (b - a).
Proof.
  apply Prim2SF_inj. rewrite !abs_spec, !sub_spec. apply SFabs_sub_sym.
Qed.

Lemma SFmul_abs x : SF64mul x x = SF64mul (SFabs x) (SFabs x).
Proof.
  unfold SF64mul. destruct x as [s|s| |s m e]; simpl; try reflexivity;
    now destruct s.
Qed.

Lemma mul_abs x : x * x = abs x * abs x.
Proof.
  apply Prim2SF_inj. rewrite !mul_spec, !abs_spec. apply SFmul_abs.
Qed.

Lemma abs_abs x : abs (abs x) = abs x.
Proof.
  apply Prim2SF_inj. rewrite !abs_spec. now destruct (Prim2SF x).
Qed.

Lemma pow2_abs x : Math.pow2 x = Math.pow2 (abs x).
Proof.
  unfold Math.pow2, is_infinity. now rewrite abs_abs, <- mul_abs.
Qed.

Lemma pow2_sub_sym a b : Math.pow2 (a - b) = Math.pow2 (b - a).
Proof. now rewrite pow2_abs, abs_sub_sym, <- pow2_abs. Qed.

(** The length of the ray is the length from its start to its end. *)
Lemma c_length_target o tg : Math.c_length o tg = Math.line_length o tg.
Proof.
  destruct o as [x1 y1], tg as [x2 y2]. unfold Math.c_length, Math.line_length.
  simpl. now rewrite (pow2_sub_sym x1 x2), (pow2_sub_sym y1 y2).
Qed.

End FloatSymmetry.

(** ** The geometry kernel *)

Section SegmentFacts.
Local Open Scope float_scope.

Lemma eval_segment_intersection_unfold p1 p2 p3 p4 :
  Math.eval_segment_intersection p1 p2 p3 p4
  = if Math.segment_dem p1 p2 p3 p4 =? 0 then p2
    else if (0 <? Math.segment_t p1 p2 p3 p4)
            && (Math.segment_t p1 p2 p3 p4 <? 1)
            && ((0 <? Math.segment_u p1 p2 p3 p4)
                && (Math.segment_u p1 p2 p3 p4 <? 1))
         then (fst p3 + Math.segment_u p1 p2 p3 p4 * (fst p4 - fst p3),
               snd p3 + Math.segment_u p1 p2 p3 p4 * (snd p4 - snd p3))
         else p2.
Proof. destruct p1, p2, p3, p4. reflexivity. Qed.

Lemma eqb_not_ltb a b :
  (a =? b) = true -> (a <? b) = false /\ (b <? a) = false.
Proof.
  rewrite FloatAxioms.eqb_spec, !FloatAxioms.ltb_spec.
  unfold SFeqb, SFltb. rewrite (SFcompare_antisym (Prim2SF a)).
  now destruct (SFcompare (Prim2SF a) (Prim2SF b)) as [[]|].
Qed.

Lemma nan_not_ltb a b :
  is_nan a = true -> (a <? b) = false /\ (b <? a) = false.
Proof.
  intros Ha. apply is_nan_spec in Ha.
  rewrite !FloatAxioms.ltb_spec. unfold SFltb. rewrite Ha.
  now destruct (Prim2SF b).
Qed.

(** C2: in double precision, [eval_segment_intersection] returns [p2]
    when the computed [dem] equals 0; otherwise, with [t] and [u] the
    computed parameters, it returns
    [(x3 + u (x4 - x3), y3 + u (y4 - y3))] when [0 < t < 1] and
    [0 < u < 1], both strict, and [p2] in every other case, so that a
    parameter on an endpoint, or one that is not a number, gives [p2]. *)
Theorem eval_segment_intersection_cases (p1 p2 p3 p4 : Math.vector2) :
  let dem := Math.segment_dem p1 p2 p3 p4 in
  let t := Math.segment_t p1 p2 p3 p4 in
  let u := Math.segment_u p1 p2 p3 p4 in
  (dem = (fst p1 - fst p2) * (snd p3 - snd p4)
         - (snd p1 - snd p2) * (fst p3 - fst p4) /\
   t = ((fst p1 - fst p3) * (snd p3 - snd p4)
        - (snd p1 - snd p3) * (fst p3 - fst p4)) / dem /\
   u = ((fst p1 - fst p3) * (snd p1 - snd p2)
        - (snd p1 - snd p3) * (fst p1 - fst p2)) / dem) /\
  ((dem =? 0) = true -> Math.eval_segment_intersection p1 p2 p3 p4 = p2) /\
  ((dem =? 0) = false ->
   (0 <? t) = true /\ (t <? 1) = true /\ (0 <? u) = true /\ (u <? 1) = true ->
     Math.eval_segment_intersection p1 p2 p3 p4
     = (fst p3 + u * (fst p4 - fst p3), snd p3 + u * (snd p4 - snd p3))) /\
  ((dem =? 0) = false ->
   ~ ((0 <? t) = true /\ (t <? 1) = true /\
      (0 <? u) = true /\ (u <? 1) = true) ->
     Math.eval_segment_intersection p1 p2 p3 p4 = p2) /\
  ((dem =? 0) = false ->
   (t =? 0) = true \/ (t =? 1) = true \/ (u =? 0) = true \/ (u =? 1) = true \/
   is_nan t = true \/ is_nan u = true ->
     Math.eval_segment_intersection p1 p2 p3 p4 = p2).
Proof.
  intros dem t u. split.
  { subst dem t u. destruct p1, p2, p3, p4. repeat split; reflexivity. }
  rewrite eval_segment_intersection_unfold.
  change (Math.segment_dem p1 p2 p3 p4) with dem.
  change (Math.segment_t p1 p2 p3 p4) with t.
  change (Math.segment_u p1 p2 p3 p4) with u.
  clearbody dem t u.
  assert (Hmiss : (dem =? 0) = false ->
            ~ ((0 <? t) = true /\ (t <? 1) = true /\
               (0 <? u) = true /\ (u <? 1) = true) ->
            (if dem =? 0 then p2
             else if (0 <? t) && (t <? 1) && ((0 <? u) && (u <? 1))
                  then (fst p3 + u * (fst p4 - fst p3),
                        snd p3 + u * (snd p4 - snd p3))
                  else p2) = p2).
  { intros -> Hn.
    destruct (0 <? t); [|reflexivity]. destruct (t <? 1); [|reflexivity].
    destruct (0 <? u); [|reflexivity]. destruct (u <? 1); [|reflexivity].
    exfalso. apply Hn. auto. }
  split; [|split; [|split; [exact Hmiss|]]].
  - now intros ->.
  - intros -> (-> & -> & -> & ->). reflexivity.
  - intros Hd Hend. apply Hmiss; [exact Hd|].
    intros (H1 & H2 & H3 & H4).
    destruct Hend as [H|[H|[H|[H|[H|H]]]]].
    + apply eqb_not_ltb in H as [_ H]. congruence.
    + apply eqb_not_ltb in H as [H _]. congruence.
    + apply eqb_not_ltb in H as [_ H]. congruence.
    + apply eqb_not_ltb in H as [H _]. congruence.
    + apply (nan_not_ltb _ 1) in H as [H _]. congruence.
    + apply (nan_not_ltb _ 1) in H as [H _]. congruence.
Qed.

(** C2 as the claim states it, with the determinant and the parameters as
    exact numbers, fails both ways.  The diagonals of a square of side
    [2^-600] cross in the middle ([dem <> 0], [t = u = 1/2]), but the
    products underflow, the computed [dem] is zero, and [p2] is returned
    instead of the middle.  And for the points (0.8, 0.7), (0.5, 0.4),
    (0.3, 0.2), (1.0, 0.9), as doubles, [t] is exactly 1, an endpoint, but
    the computed [t] is 0.67 and a point other than [p2] is returned. *)
Lemma eval_segment_intersection_underflow :
  let a := 0x1p-600 in
  let p1 := (0, 0) in let p2 := (a, a) in
  let p3 := (0, a) in let p4 := (a, 0) in
  let q1 := (0.8, 0.7) in let q2 := (0.5, 0.4) in
  let q3 := (0.3, 0.2) in let q4 := (1, 0.9) in
  (~ (exact_dem p1 p2 p3 p4 == 0)%Q /\
   (0 < exact_t p1 p2 p3 p4 < 1)%Q /\
   (0 < exact_u p1 p2 p3 p4 < 1)%Q /\
   Math.eval_segment_intersection p1 p2 p3 p4 = p2 /\
   ~ (exact (fst p2)
      == exact (fst p3)
         + exact_u p1 p2 p3 p4 * (exact (fst p4) - exact (fst p3)))%Q) /\
  (~ (exact_dem q1 q2 q3 q4 == 0)%Q /\
   (exact_t q1 q2 q3 q4 == 1)%Q /\
   Math.eval_segment_intersection q1 q2 q3 q4
   = (0.53333333333333333, 0.43333333333333335)).
Proof.
  cbv zeta. split; [split; [|split; [|split; [|split]]]|split; [|split]].
  - vm_compute. discriminate.
  - split; vm_compute; reflexivity.
  - split; vm_compute; reflexivity.
  - vm_compute. reflexivity.
  - vm_compute. discriminate.
  - vm_compute. discriminate.
  - vm_compute. reflexivity.
  - vm_compute. reflexivity.
Qed.

End SegmentFacts.

Section MoveTowardInt.
Local Open Scope Z_scope.

Ltac int_cases :=
  unfold Math.move_toward, Math.__gt__; cbn [Math.__lt__ Math.__le__
    Math.__abs__ Math.__sub__ Math.__add__ Math.literal_0 Math.py_int];
  repeat match goal with
         | |- context [(?a <? ?b)%Z] => destruct (Z.ltb_spec a b)
         | |- context [(?a <=? ?b)%Z] => destruct (Z.leb_spec a b)
         end.

Lemma int_snap (x target speed : Z) :
  0 <= speed -> Z.abs (target - x) <= speed ->
  Math.move_toward x target speed = Returns (Some target).
Proof. intros Hs Hd. int_cases; try reflexivity; exfalso; lia. Qed.

Lemma int_up (x target speed : Z) :
  0 <= speed -> speed < target - x ->
  Math.move_toward x target speed = Returns (Some (x + speed)).
Proof. intros Hs Hd. int_cases; try reflexivity; exfalso; lia. Qed.

Lemma int_down (x target speed : Z) :
  0 <= speed -> target - x < - speed ->
  Math.move_toward x target speed = Returns (Some (x - speed)).
Proof. intros Hs Hd. int_cases; try reflexivity; exfalso; lia. Qed.

Lemma int_loop_closed_form (origin target speed : Z) :
  0 < speed -> forall k,
  Math.move_toward_loop k origin target speed
  = Returns (Some (approach k origin target speed)).
Proof.
  intros Hs. induction k as [|k IH].
  - simpl. unfold approach. simpl Z.of_nat. rewrite Z.mul_0_l.
    destruct (Z.leb_spec (Z.abs (target - origin)) 0) as [H|H].
    + do 2 f_equal. lia.
    + destruct (Z.leb_spec origin target); do 2 f_equal; lia.
  - cbn [Math.move_toward_loop]. rewrite IH. unfold approach.
    rewrite Nat2Z.inj_succ, Z.mul_succ_l.
    set (ks := Z.of_nat k * speed).
    assert (Hks : 0 <= ks) by (subst ks; nia).
    destruct (Z.leb_spec (Z.abs (target - origin)) ks) as [H|H].
    + rewrite int_snap; [|lia|lia].
      destruct (Z.leb_spec (Z.abs (target - origin)) (ks + speed));
        [reflexivity | exfalso; lia].
    + destruct (Z.leb_spec origin target) as [Ho|Ho].
      * destruct (Z.leb_spec (Z.abs (target - origin)) (ks + speed)).
        -- apply int_snap; lia.
        -- rewrite int_up; [|lia|lia]. do 2 f_equal. lia.
      * destruct (Z.leb_spec (Z.abs (target - origin)) (ks + speed)).
        -- apply int_snap; lia.
        -- rewrite int_down; [|lia|lia]. do 2 f_equal. lia.
Qed.

Lemma approach_between k (origin target speed : Z) :
  0 < speed ->
  Z.min origin target <= approach k origin target speed <= Z.max origin target.
Proof.
  intros Hs. unfold approach.
  assert (Hks : 0 <= Z.of_nat k * speed) by nia.
  destruct (Z.leb_spec (Z.abs (target - origin)) (Z.of_nat k * speed));
    destruct (Z.leb_spec origin target); lia.
Qed.

Lemma ceil_quotient_covers (a b : Z) :
  0 <= a -> 0 < b -> 0 <= ceil_quotient a b /\ a <= ceil_quotient a b * b.
Proof.
  intros Ha Hb. unfold ceil_quotient.
  set (q := (inject_Z a / inject_Z b)%Q).
  assert (Hb' : (0 < inject_Z b)%Q) by (rewrite <- (Zlt_Qlt 0); exact Hb).
  assert (Hq : (0 <= q)%Q).
  { subst q. apply Qle_shift_div_l; [exact Hb'|].
    rewrite Qmult_0_l, <- (Zle_Qle 0). exact Ha. }
  pose proof (Qle_ceiling q) as Hc.
  split.
  - rewrite (Zle_Qle 0). eapply Qle_trans; [exact Hq|exact Hc].
  - rewrite Zle_Qle, inject_Z_mult.
    apply Qle_trans with (q * inject_Z b)%Q.
    + subst q. rewrite Qmult_comm, Qmult_div_r; [apply Qle_refl|].
      intros H0. rewrite H0 in Hb'. now apply Qlt_irrefl in Hb'.
    + apply Qmult_le_compat_r; [exact Hc|]. now apply Qlt_le_weak.
Qed.

End MoveTowardInt.

Section MoveTowardFloat.
Local Open Scope float_scope.

Lemma leb_zero_not_nan s : (0 <=? s) = true -> Prim2SF s <> S754_nan.
Proof.
  rewrite leb_spec. unfold SFleb.
  replace (Prim2SF 0) with (S754_zero false) by reflexivity.
  intros H E. rewrite E in H. discriminate.
Qed.

Lemma leb_zero_ltb s : (0 <=? s) = true -> (s <? 0) = false.
Proof.
  rewrite leb_spec, FloatAxioms.ltb_spec. unfold SFleb, SFltb.
  rewrite (SFcompare_antisym (Prim2SF 0)).
  now destruct (SFcompare (Prim2SF 0) (Prim2SF s)) as [[]|].
Qed.

Lemma ltb_zero_leb s : (0 <? s) = true -> (0 <=? s) = true.
Proof.
  rewrite leb_spec, FloatAxioms.ltb_spec. unfold SFleb, SFltb.
  now destruct (SFcompare (Prim2SF 0) (Prim2SF s)) as [[]|].
Qed.

(** Equal to a number that is not below zero: then the absolute value is
    not greater either. *)
Lemma SFcompare_Eq_abs d s :
  SFcompare d s = Some Eq ->
  SFleb (S754_zero false) s = true ->
  SFleb (SFabs d) s = true.
Proof.
  unfold SFleb.
  destruct d as [[]|[]| |[] md ed], s as [[]|[]| |[] ms es]; simpl;
    try discriminate; try reflexivity.
  intros H _. injection H as H. now rewrite H.
Qed.

(** Beyond reach, the target is on one side only. *)
Lemma beyond_reach_one_side d s :
  (0 <=? s) = true -> is_nan d = false -> (abs d <=? s) = false ->
  xorb (s <? d) (d <? s) = true.
Proof.
  intros Hs Hd Habs.
  assert (Hsn := leb_zero_not_nan s Hs).
  assert (Hdn : Prim2SF d <> S754_nan).
  { intros E. apply is_nan_spec in E. congruence. }
  destruct (SFcompare_total _ _ Hdn Hsn) as [c Hc].
  rewrite leb_spec in Hs. rewrite leb_spec, abs_spec in Habs.
  rewrite !FloatAxioms.ltb_spec. unfold SFltb.
  rewrite (SFcompare_antisym (Prim2SF d) (Prim2SF s)), Hc.
  destruct c; simpl; try reflexivity.
  replace (Prim2SF 0) with (S754_zero false) in Hs by reflexivity.
  rewrite (SFcompare_Eq_abs _ _ Hc Hs) in Habs. discriminate.
Qed.

Lemma float_snap (x target speed : float) :
  (0 <=? speed) = true -> (abs (target - x) <=? speed) = true ->
  Math.move_toward x target speed = Returns (Some target).
Proof.
  intros Hs Hd. unfold Math.move_toward.
  cbn [Math.__lt__ Math.__le__ Math.__abs__ Math.__sub__ Math.literal_0
       Math.py_float].
  now rewrite (leb_zero_ltb _ Hs), Hd.
Qed.

End MoveTowardFloat.

Section MoveTowardFacts.
Local Open Scope float_scope.




(** C10: with [speed >= 0] and a difference [target - origin] that is a
    number (not a NaN), [move_toward] returns a number: when the computed
    [|target - origin|] exceeds [speed], exactly one of
    [target - origin > speed] and [target - origin < speed] holds, so the
    fall-through past the three [if]s is not reached. *)
Theorem move_toward_returns_number (origin target speed : float) :
  (0 <=? speed) = true ->
  is_nan (target - origin) = false ->
  (exists v, Math.move_toward origin target speed = Returns (Some v)) /\
  ((abs (target - origin) <=? speed) = false ->
     ((speed <? target - origin) = true /\
      (target - origin <? speed) = false) \/
     ((speed <? target - origin) = false /\
      (target - origin <? speed) = true)).
Proof.
  intros Hs Hd. split.
  - unfold Math.move_toward, Math.__gt__.
    cbn [Math.__lt__ Math.__le__ Math.__abs__ Math.__sub__ Math.__add__
         Math.literal_0 Math.py_float].
    rewrite (leb_zero_ltb _ Hs).
    destruct (abs (target - origin) <=? speed) eqn:Habs; [eauto|].
    pose proof (beyond_reach_one_side _ _ Hs Hd Habs) as Hx.
    destruct (speed <? target - origin); [eauto|].
    destruct (target - origin <? speed); [eauto|discriminate].
  - intros Habs. pose proof (beyond_reach_one_side _ _ Hs Hd Habs) as Hx.
    destruct (speed <? target - origin), (target - origin <? speed);
      try discriminate; auto.
Qed.

Lemma move_toward_returns_number_witness :
  (0 <=? 1) = true /\ is_nan (5 - 0) = false /\
  exists v, Math.move_toward 0 5 1 = Returns (Some v).
Proof.
  assert (H : (0 <=? 1) = true) by reflexivity.
  assert (H' : is_nan (5 - 0) = false) by reflexivity.
  split; [exact H|]. split; [exact H'|].
  exact (proj1 (move_toward_returns_number 0 5 1 H H')).
Defined.

(** C10 as the claim states it fails: with [speed >= 0], an infinite origin
    and the same target have a NaN for difference, every test is false and
    nothing is returned; so it is with a target that is a NaN. *)
Lemma move_toward_falls_through :
  (0 <=? 1) = true /\
  Math.move_toward infinity infinity 1 = Returns None /\
  Math.move_toward 0 nan 1 = Returns None.
Proof. repeat split; reflexivity. Qed.

(** X1: a negative speed is refused, whatever the points, for integers and
    for floats alike. *)
Lemma move_toward_negative_speed {A} `{Math.Number A} (origin target speed : A) :
  Math.__lt__ speed Math.literal_0 = true ->
  Math.move_toward origin target speed = Raises NegativeSpeedError.
Proof. intros Hs. unfold Math.move_toward. now rewrite Hs. Qed.

Lemma move_toward_negative_speed_witness :
  (-1 <? 0) = true /\ Math.move_toward 0 0 (-1) = Raises NegativeSpeedError.
Proof.
  assert (H : Math.__lt__ (-1) Math.literal_0 = true) by reflexivity.
  split; [exact H|]. exact (move_toward_negative_speed 0 0 (-1) H).
Defined.

End MoveTowardFacts.

Section RaycastFacts.
Local Open Scope float_scope.

Lemma pow2_cases x :
  Math.pow2 x = Raises OverflowError \/ Math.pow2 x = Returns (x * x).
Proof.
  unfold Math.pow2. destruct (is_infinity (x * x) && negb (is_infinity x)); auto.
Qed.

Lemma sqrt_of_squares a b :
  Math.math_sqrt (a * a + b * b) = Returns (sqrt (a * a + b * b)).
Proof.
  unfold Math.math_sqrt.
  rewrite not_negative_ltb_zero; [reflexivity|].
  apply sum_not_negative; apply square_not_negative.
Qed.

Lemma length_of_squares a b :
  (a' ← Math.pow2 a; b' ← Math.pow2 b; Math.math_sqrt (a' + b'))
  = Raises OverflowError \/
  exists l, (a' ← Math.pow2 a; b' ← Math.pow2 b; Math.math_sqrt (a' + b'))
            = Returns l.
Proof.
  destruct (pow2_cases a) as [-> | ->]; [now left|].
  destruct (pow2_cases b) as [-> | ->]; [now left|].
  right. eexists. apply sqrt_of_squares.
Qed.

Lemma line_length_cases o tg :
  Math.line_length o tg = Raises OverflowError \/
  exists l, Math.line_length o tg = Returns l.
Proof.
  destruct o as [x1 y1], tg as [x2 y2]. apply length_of_squares.
Qed.

Lemma c_length_cases o c :
  Math.c_length o c = Raises OverflowError \/
  exists l, Math.c_length o c = Returns l.
Proof. destruct o as [x1 y1]. apply length_of_squares. Qed.

Lemma intersects_false o tg wall :
  Math.intersects o tg wall = false -> Math.hit_point o tg wall = tg.
Proof.
  unfold Math.intersects, Math.hit_point, Math.eval_segment_intersection,
    Math.segment_t, Math.segment_u, Math.segment_dem.
  destruct o as [x1 y1], tg as [x2 y2], wall as [[x3 y3] [x4 y4]]. simpl.
  destruct (_ =? 0); [reflexivity|]. simpl. now intros ->.
Qed.

Lemma raycast_step_unfold o tg hp len wall :
  Math.raycast_step o tg (hp, len) wall
  = (l ← Math.c_length o (Math.hit_point o tg wall);
     if l <? len then Returns (Math.hit_point o tg wall, l)
     else Returns (hp, len)).
Proof. reflexivity. Qed.

(** The loop: it returns when every length is defined, and then what it
    holds is the pair it started from or a wall's point at a smaller
    length, below which no wall's point lies. *)
Lemma raycast_loop_spec o tg : forall walls hp len,
  (forall e, Math.raycast_loop o tg walls (hp, len) = Raises e ->
     e = OverflowError) /\
  ((exists acc, Math.raycast_loop o tg walls (hp, len) = Returns acc) <->
     forall wall, wall ∈ walls ->
       exists l, Math.c_length o (Math.hit_point o tg wall) = Returns l) /\
  (forall hp' len',
     Math.raycast_loop o tg walls (hp, len) = Returns (hp', len') ->
     ((hp', len') = (hp, len) \/
      exists wall, wall ∈ walls /\ hp' = Math.hit_point o tg wall /\
        Math.c_length o hp' = Returns len' /\ (len' <? len) = true) /\
     (forall wall l, wall ∈ walls ->
        Math.c_length o (Math.hit_point o tg wall) = Returns l ->
        (l <? len') = false) /\
     (forall x, (x <? len) = false -> (x <? len') = false)).
Proof.
  induction walls as [|wall rest IH]; intros hp len.
  - simpl. split; [discriminate|]. split.
    + split; [intros _ w Hw; now apply elem_of_nil in Hw|eauto].
    + intros hp' len' [= <- <-]. split; [now left|].
      split; [intros w l Hw; now apply elem_of_nil in Hw|auto].
  - cbn [Math.raycast_loop]. rewrite raycast_step_unfold.
    destruct (c_length_cases o (Math.hit_point o tg wall)) as [Hc | [l Hc]];
      rewrite Hc; simpl.
    + split; [now intros e [= <-]|]. split.
      * split; [intros [acc Hacc]; discriminate|].
        intros Hall. destruct (Hall wall) as [l Hl]; [left|]. congruence.
      * discriminate.
    + set (acc := if l <? len then Returns (Math.hit_point o tg wall, l)
                  else Returns (hp, len)).
      destruct (l <? len) eqn:Hlt; subst acc; simpl.
      * destruct (IH (Math.hit_point o tg wall) l) as (He & Hret & Hspec).
        split; [exact He|]. split.
        -- rewrite Hret. split.
           ++ intros Hall w Hw. apply elem_of_cons in Hw as [-> | Hw]; eauto.
           ++ intros Hall w Hw. apply Hall. now right.
        -- intros hp' len' Hrun.
           destruct (Hspec hp' len' Hrun) as (Hwhich & Hmin & Hmono).
           split; [|split].
           ++ right. destruct Hwhich as [[= -> ->] | (w & Hw & -> & Hl & Hlt')].
              ** exists wall. split; [left|]. auto.
              ** exists w. split; [now right|]. split; [reflexivity|].
                 split; [exact Hl|]. eapply ltb_trans; eassumption.
           ++ intros w l' Hw Hl'. apply elem_of_cons in Hw as [-> | Hw].
              ** assert (l' = l) as -> by congruence.
                 apply Hmono, ltb_irrefl.
              ** now apply (Hmin w).
           ++ intros x Hx. apply Hmono.
              destruct (x <? l) eqn:Hxl; [|reflexivity].
              now rewrite (ltb_trans _ _ _ Hxl Hlt) in Hx.
      * destruct (IH hp len) as (He & Hret & Hspec).
        split; [exact He|]. split.
        -- rewrite Hret. split.
           ++ intros Hall w Hw. apply elem_of_cons in Hw as [-> | Hw]; eauto.
           ++ intros Hall w Hw. apply Hall. now right.
        -- intros hp' len' Hrun.
           destruct (Hspec hp' len' Hrun) as (Hwhich & Hmin & Hmono).
           split; [|split].
           ++ destruct Hwhich as [Heq | (w & Hw & Hrest)]; [now left|].
              right. exists w. split; [now right|exact Hrest].
           ++ intros w l' Hw Hl'. apply elem_of_cons in Hw as [-> | Hw].
              ** assert (l' = l) as -> by congruence. now apply Hmono.
              ** now apply (Hmin w).
           ++ exact Hmono.
Qed.

Lemma raycast_loop_ignores_missed o tg l0 :
  Math.line_length o tg = Returns l0 ->
  forall walls hp len,
    (l0 <? len) = false ->
    Math.raycast_loop o tg walls (hp, len)
    = Math.raycast_loop o tg
        (filter (fun wall => Math.intersects o tg wall = true) walls)
        (hp, len).
Proof.
  intros Hl0. induction walls as [|wall rest IH]; intros hp len Hlen;
    [reflexivity|].
  rewrite filter_cons.
  destruct (decide (Math.intersects o tg wall = true)) as [Hi|Hi].
  - cbn [Math.raycast_loop]. rewrite raycast_step_unfold.
    destruct (Math.c_length o (Math.hit_point o tg wall)) as [l|e];
      [|reflexivity].
    simpl. destruct (l <? len) eqn:Hlt; simpl.
    + apply IH. destruct (l0 <? l) eqn:H0; [|reflexivity].
      now rewrite (ltb_trans _ _ _ H0 Hlt) in Hlen.
    + now apply IH.
  - apply not_true_is_false in Hi.
    cbn [Math.raycast_loop]. rewrite raycast_step_unfold.
    rewrite (intersects_false _ _ _ Hi), c_length_target, Hl0. simpl.
    rewrite Hlen. simpl. now apply IH.
Qed.

Lemma filter_none {A} (P : A -> Prop) `{forall x, Decision (P x)} (l : list A) :
  (forall x, x ∈ l -> ~ P x) -> filter P l = [].
Proof.
  induction l as [|x l IH]; intros Hl; [reflexivity|].
  rewrite filter_cons, decide_False by (apply Hl; left).
  apply IH. intros y Hy. apply Hl. now right.
Qed.

Lemma raycast_scenario :
  Math.raycast (0, 0) (10, 20) [((0, 10), (10, 10))] = Returns (5, 10).
Proof. reflexivity. Qed.



End RaycastFacts.

(** ** Further facts about the geometry kernel *)

Section KernelFacts.
Local Open Scope float_scope.

(** X9: a wall that fails the test of [eval_segment_intersection] never
    changes what [raycast] returns or raises: the result is that of the
    walls that pass the test, in their order. *)
Theorem raycast_ignores_missed_walls (origin target : Math.vector2)
    (walls : list (Math.vector2 * Math.vector2)) :
  Math.raycast origin target walls
  = Math.raycast origin target
      (filter (fun wall => Math.intersects origin target wall = true) walls).
Proof.
  unfold Math.raycast.
  destruct (Math.line_length origin target) as [l0|e] eqn:Hl; [|reflexivity].
  simpl.
  now rewrite (raycast_loop_ignores_missed _ _ _ Hl walls target l0)
    by apply ltb_irrefl.
Qed.

Lemma is_finite_spec x :
  is_finite x = true ->
  match Prim2SF x with
  | S754_zero _ | S754_finite _ _ _ => True
  | _ => False
  end.
Proof.
  unfold is_finite, is_infinity. intros H.
  apply negb_true_iff, orb_false_iff in H as [Hnan Hinf].
  rewrite FloatAxioms.eqb_spec, abs_spec in Hinf.
  destruct (Prim2SF x) as [s|s| |s m e] eqn:Hx; try exact I.
  - now destruct s.
  - assert (Hn : is_nan x = true) by now apply is_nan_spec.
    congruence.
Qed.

Lemma sub_diag x : is_finite x = true -> x - x = 0.
Proof.
  intros Hf. apply is_finite_spec in Hf. apply Prim2SF_inj.
  rewrite sub_spec. replace (Prim2SF 0) with (S754_zero false) by reflexivity.
  unfold SF64sub. destruct (Prim2SF x) as [s|s| |s m e]; try contradiction.
  - now destruct s.
  - simpl. now rewrite Z.sub_diag.
Qed.

(** X12: at a finite target, with [speed >= 0], [move_toward] returns the
    target itself, so a loop that has reached the target stays there. *)
Theorem move_toward_stays_at_target (target speed : float) :
  is_finite target = true ->
  (0 <=? speed) = true ->
  Math.move_toward target target speed = Returns (Some target) /\
  forall (origin : float) (n k : nat),
    Math.move_toward_loop n origin target speed = Returns (Some target) ->
    Math.move_toward_loop (n + k) origin target speed = Returns (Some target).
Proof.
  intros Hf Hs.
  assert (Hfix : Math.move_toward target target speed = Returns (Some target)).
  { apply float_snap; [exact Hs|]. now rewrite sub_diag. }
  split; [exact Hfix|].
  intros origin n k Hn. induction k as [|k IH].
  - now rewrite Nat.add_0_r.
  - rewrite Nat.add_succ_r. cbn [Math.move_toward_loop]. now rewrite IH.
Qed.

Lemma move_toward_stays_at_target_witness :
  is_finite 1 = true /\ (0 <=? 0.1) = true /\
  Math.move_toward 1 1 0.1 = Returns (Some 1) /\
  Math.move_toward_loop (11 + 5) 0 1 0.1 = Returns (Some 1).
Proof.
  assert (H1 : is_finite 1 = true) by reflexivity.
  assert (H2 : (0 <=? 0.1) = true) by reflexivity.
  assert (H3 : Math.move_toward_loop 11 0 1 0.1 = Returns (Some 1))
    by reflexivity.
  split; [exact H1|]. split; [exact H2|].
  pose proof (move_toward_stays_at_target 1 0.1 H1 H2) as [Hfix Hstay].
  split; [exact Hfix|]. exact (Hstay 0 11%nat 5%nat H3).
Defined.

End KernelFacts.

(** ** Scenes and their entities *)

Section SceneFacts.
Context {E : Type} `{Entity.Entity E}.

Lemma list_remove_None (x : Scene.ref) l : list_remove x l = None <-> x ∉ l.
Proof.
  induction l as [|y l IH]; simpl.
  - split; [intros _; apply not_elem_of_nil | reflexivity].
  - destruct (decide (y = x)) as [->|Hne].
    + split; [discriminate|]. intros Hn. exfalso. apply Hn. left.
    + rewrite not_elem_of_cons. destruct (list_remove x l).
      * split; [discriminate|]. intros [_ Hn]. now apply IH in Hn.
      * split; [|reflexivity]. intros _. split; [congruence|]. now apply IH.
Qed.

Lemma list_remove_middle (x : Scene.ref) pre post :
  x ∉ pre -> list_remove x (pre ++ x :: post) = Some (pre ++ post).
Proof.
  induction pre as [|y pre IH]; simpl; intros Hn.
  - destruct (decide (x = x)); [reflexivity|contradiction].
  - apply not_elem_of_cons in Hn as [Hne Hn].
    destruct (decide (y = x)); [congruence|]. now rewrite IH.
Qed.

Lemma updated_outside delta_time snapshot : forall (st : Scene.store E) o,
  o ∉ snapshot -> updated delta_time snapshot st o = st o.
Proof.
  induction snapshot as [|a l IH]; intros st o Hn; [reflexivity|].
  apply not_elem_of_cons in Hn as [Hne Hn]. unfold updated in *. simpl.
  rewrite IH by assumption. now apply fn_lookup_alter_ne.
Qed.

Lemma updated_inside delta_time snapshot : forall (st : Scene.store E) o,
  NoDup snapshot -> o ∈ snapshot ->
  updated delta_time snapshot st o = Entity.update delta_time (st o).
Proof.
  induction snapshot as [|a l IH]; intros st o Hnd Ho;
    [now apply elem_of_nil in Ho|].
  apply NoDup_cons in Hnd as [Ha Hl].
  change (updated delta_time (a :: l) st)
    with (updated delta_time l (alter (Entity.update delta_time) a st)).
  apply elem_of_cons in Ho as [->|Ho].
  - rewrite updated_outside by assumption. apply fn_lookup_alter.
  - rewrite IH by assumption. f_equal. apply fn_lookup_alter_ne.
    intros ->. contradiction.
Qed.

(** The loop over the rest of the snapshot, the live list being what was
    kept so far followed by that rest. *)
Lemma advance_loop_spec delta_time : forall rest kept (st : Scene.store E) self,
  Scene.entities self = kept ++ rest ->
  NoDup (kept ++ rest) ->
  Scene.advance_loop delta_time rest (st, self)
  = (Returns tt,
     (updated delta_time rest st,
      Scene.set_entities
        (kept ++ filter (fun o => Entity._is_destroyed
                                    (updated delta_time rest st o) = false)
                        rest)
        self)).
Proof.
  induction rest as [|a rest IH]; intros kept st self Hent Hnd.
  - simpl. rewrite app_nil_r in *. destruct self; simpl in *. now subst.
  - apply NoDup_app in Hnd as Hnd'. destruct Hnd' as (Hk & Hdisj & Hr).
    apply NoDup_cons in Hr as [Ha Hr].
    assert (Hak : a ∉ kept) by (intros Hin; apply (Hdisj a Hin); left).
    set (st1 := alter (Entity.update delta_time) a st).
    assert (Hst : updated delta_time (a :: rest) st
                  = updated delta_time rest st1) by reflexivity.
    assert (Hflag : updated delta_time rest st1 a = st1 a)
      by now apply updated_outside.
    rewrite Hst, filter_cons, Hflag.
    cbn [Scene.advance_loop]. unfold mbind, M_bind, modify, get. simpl.
    fold st1. destruct (Entity._is_destroyed (st1 a)) eqn:Hd.
    + rewrite decide_False by discriminate.
      rewrite Hent, list_remove_middle by assumption. simpl.
      rewrite (IH kept st1 (Scene.set_entities (kept ++ rest) self)).
      * reflexivity.
      * reflexivity.
      * apply NoDup_app. split; [assumption|]. split; [|assumption].
        intros o Ho Hor. apply (Hdisj o Ho). now right.
    + rewrite decide_True by reflexivity. simpl.
      rewrite (IH (kept ++ [a]) st1 self).
      * now rewrite <- app_assoc.
      * now rewrite <- app_assoc.
      * now rewrite <- app_assoc.
Qed.

(** C4, amended: when no entity occurs twice in the collection,
    [advance_frame(delta_time)] goes through the snapshot taken at entry,
    calls [update(delta_time)] once on each of its entities and on no
    other, and removes in that pass every entity whose flag is set after
    its update; the entities whose flag is not set stay, in their order. *)
Theorem advance_frame_snapshot (delta_time : float) (st : Scene.store E)
    (self : Scene.Scene) :
  NoDup (Scene.entities self) ->
  advance_frame_removes_destroyed delta_time st self /\
  (forall st' self',
     Scene.advance_frame delta_time (st, self) = (Returns tt, (st', self')) ->
     (forall o, o ∈ Scene.entities self ->
        st' o = Entity.update delta_time (st o)) /\
     (forall o, o ∉ Scene.entities self -> st' o = st o)).
Proof.
  intros Hnd.
  assert (Hrun := advance_loop_spec delta_time (Scene.entities self) [] st self
                    eq_refl Hnd).
  split.
  - exists (updated delta_time (Scene.entities self) st).
    split; [exact Hrun|reflexivity].
  - intros st' self' Heq.
    unfold Scene.advance_frame in Heq. unfold mbind, M_bind, get in Heq.
    simpl in Heq. rewrite Hrun in Heq. injection Heq as <- _.
    split; intros o Ho; [now apply updated_inside|now apply updated_outside].
Qed.

Lemma test_collisions_raises_iff (self : Scene.Scene) (st : Scene.store E) e :
  e ∉ Scene.entities self <->
  Scene.test_collisions self st e = Raises EntityNotInScene.
Proof.
  unfold Scene.test_collisions. rewrite <- list_remove_None.
  destruct (list_remove e (Scene.entities self)); split; congruence.
Qed.

Lemma list_remove_filter_ne (P : Scene.ref -> Prop) `{forall o, Decision (P o)}
    (e : Scene.ref) : forall l l',
  NoDup l -> list_remove e l = Some l' ->
  filter P l' = filter (fun o => o <> e /\ P o) l.
Proof.
  induction l as [|y l IH]; intros l' Hnd Hrm; [discriminate|].
  apply NoDup_cons in Hnd as [Hy Hnd]. simpl in Hrm.
  destruct (decide (y = e)) as [->|Hne].
  - injection Hrm as <-. rewrite filter_cons, decide_False by tauto.
    clear IH Hnd. induction l as [|z l IHl]; [reflexivity|].
    apply not_elem_of_cons in Hy as [Hze Hy]. rewrite !filter_cons.
    rewrite <- IHl by assumption.
    destruct (decide (P z)).
    + rewrite decide_True; [reflexivity|]. split; [congruence|assumption].
    + rewrite decide_False by tauto. reflexivity.
  - destruct (list_remove e l) as [l0|] eqn:Hl; [|discriminate].
    injection Hrm as <-. rewrite !filter_cons, (IH l0) by auto.
    destruct (decide (P y)).
    + rewrite decide_True by tauto. reflexivity.
    + rewrite decide_False by tauto. reflexivity.
Qed.

(** C5, amended: when no entity occurs twice in the collection,
    [test_collisions(e)] raises [EntityNotInScene] exactly when [e] is not
    a member, and otherwise returns exactly the entities other than [e]
    whose hitbox overlaps that of [e]; two rectangles overlap iff their
    x-ranges and their y-ranges both overlap. *)
Theorem test_collisions_distinct (self : Scene.Scene) (st : Scene.store E)
    (e : Scene.ref) :
  NoDup (Scene.entities self) ->
  collisions_exclude_self self st e /\
  (forall a b : Entity.Rect,
     Entity.colliderect a b = true <->
     ((Entity.x a < Entity.x b + Entity.w b /\
       Entity.x b < Entity.x a + Entity.w a) /\
      (Entity.y a < Entity.y b + Entity.h b /\
       Entity.y b < Entity.y a + Entity.h a))%Z).
Proof.
  intros Hnd. split; [split|].
  - apply test_collisions_raises_iff.
  - intros Hin. unfold Scene.test_collisions.
    destruct (list_remove e (Scene.entities self)) as [l'|] eqn:Hrm.
    + f_equal. now apply list_remove_filter_ne with (l := Scene.entities self).
    + apply list_remove_None in Hrm. contradiction.
  - intros a b. unfold Entity.colliderect.
    rewrite !andb_true_iff, !Z.ltb_lt. tauto.
Qed.

End SceneFacts.

Lemma advance_frame_snapshot_witness :
  NoDup [0%nat; 1%nat] /\
  advance_frame_removes_destroyed 1%float Examples.nursery
    (Examples.scene_with [0%nat; 1%nat]).
Proof.
  assert (Hnd : NoDup [0%nat; 1%nat])
    by (apply (bool_decide_unpack _); vm_compute; exact I).
  split; [exact Hnd|].
  exact (proj1 (advance_frame_snapshot 1%float Examples.nursery
                  (Examples.scene_with [0%nat; 1%nat]) Hnd)).
Defined.

(** C4 as stated fails on a collection that holds one entity twice: the
    entity is updated twice, its flag is set by the second update, and one
    of its two occurrences stays in the scene. *)
Lemma advance_frame_duplicate_survives :
  ~ advance_frame_removes_destroyed 1%float Examples.nursery
      (Examples.scene_with [0%nat; 0%nat]).
Proof.
  intros (st' & Hrun & Hst).
  assert (Hfl : Entity._is_destroyed (st' 0%nat) = true)
    by (rewrite Hst; reflexivity).
  apply (f_equal (fun r => Scene.entities (snd (snd r)))) in Hrun.
  assert (Hlive : Scene.entities
                    (snd (snd (Scene.advance_frame 1%float
                                 (Examples.nursery,
                                  Examples.scene_with [0%nat; 0%nat]))))
                  = [0%nat]) by (vm_compute; reflexivity).
  rewrite Hlive in Hrun. cbn [snd Scene.entities Scene.set_entities
    Examples.scene_with Scene.__init__] in Hrun.
  rewrite !filter_cons, Hfl in Hrun.
  rewrite decide_False in Hrun by discriminate. discriminate.
Qed.

Lemma test_collisions_distinct_witness :
  NoDup [0%nat; 1%nat; 2%nat] /\
  collisions_exclude_self (Examples.scene_with [0%nat; 1%nat; 2%nat])
    Examples.nursery 0%nat.
Proof.
  assert (Hnd : NoDup [0%nat; 1%nat; 2%nat])
    by (apply (bool_decide_unpack _); vm_compute; exact I).
  split; [exact Hnd|].
  exact (proj1 (test_collisions_distinct
                  (Examples.scene_with [0%nat; 1%nat; 2%nat])
                  Examples.nursery 0%nat Hnd)).
Defined.

(** C5 as stated fails on a collection that holds the queried entity
    twice: only its first occurrence leaves the candidates, and the entity
    is returned as colliding with itself. *)
Lemma test_collisions_duplicate_self :
  ~ collisions_exclude_self (Examples.scene_with [0%nat; 0%nat])
      Examples.nursery 0%nat.
Proof.
  intros [_ Hret]. specialize (Hret ltac:(left)).
  vm_compute in Hret. discriminate.
Qed.

Section SceneFacts2.
Context {E : Type} `{Entity.Entity E}.

Lemma list_remove_Some (x : Scene.ref) : forall l,
  x ∈ l -> exists l', list_remove x l = Some l' /\ l ≡ₚ x :: l' /\
                      l' `sublist_of` l.
Proof.
  induction l as [|y l IH]; intros Hin; [now apply elem_of_nil in Hin|].
  simpl. destruct (decide (y = x)) as [->|Hne].
  - exists l. split; [reflexivity|]. split; [reflexivity|].
    apply sublist_cons. reflexivity.
  - apply elem_of_cons in Hin as [->|Hin]; [contradiction|].
    destruct (IH Hin) as (l' & -> & Hp & Hs). exists (y :: l').
    split; [reflexivity|]. split.
    + rewrite Hp. apply Permutation_swap.
    + now apply sublist_skip.
Qed.

(** The loop, for any snapshot whose occurrences are all in the live list. *)
Lemma advance_loop_total delta_time : forall rest (st : Scene.store E) self,
  rest ⊆+ Scene.entities self ->
  exists l',
    Scene.advance_loop delta_time rest (st, self)
    = (Returns tt, (updated delta_time rest st, Scene.set_entities l' self)) /\
    l' `sublist_of` Scene.entities self.
Proof.
  induction rest as [|a rest IH]; intros st self Hsub.
  - exists (Scene.entities self). split; [|reflexivity].
    simpl. now destruct self.
  - apply submseteq_cons_l in Hsub as Hsub'.
    destruct Hsub' as (k & Hk & Hrest).
    assert (Ha : a ∈ Scene.entities self) by (rewrite Hk; left).
    destruct (list_remove_Some a _ Ha) as (l1 & Hrm & Hp & Hs1).
    set (st1 := alter (Entity.update delta_time) a st).
    cbn [Scene.advance_loop]. unfold mbind, M_bind, modify, get. simpl.
    fold st1. destruct (Entity._is_destroyed (st1 a)) eqn:Hd.
    + rewrite Hrm. simpl.
      destruct (IH st1 (Scene.set_entities l1 self)) as (l' & Hrun & Hs).
      { simpl. apply (submseteq_app_inv_l _ _ [a]). simpl.
        rewrite <- Hp. exact Hsub. }
      exists l'. split; [exact Hrun|]. simpl in Hs. now transitivity l1.
    + simpl. destruct (IH st1 self) as (l' & Hrun & Hs).
      { rewrite Hk. now apply submseteq_cons. }
      exists l'. split; assumption.
Qed.

(** X16: [advance_frame] never raises, whatever the collection holds
    (duplicates included): [self.entities.remove(object)] always finds
    its object; every entity of the snapshot is updated, and the
    collection left is a sub-list of the one found, in the same order. *)
Theorem advance_frame_never_raises (delta_time : float) (st : Scene.store E)
    (self : Scene.Scene) :
  exists l',
    Scene.advance_frame delta_time (st, self)
    = (Returns tt,
       (updated delta_time (Scene.entities self) st,
        Scene.set_entities l' self)) /\
    l' `sublist_of` Scene.entities self.
Proof.
  unfold Scene.advance_frame. unfold mbind at 1. unfold M_bind at 1.
  unfold get at 1. cbv beta iota.
  now apply advance_loop_total.
Qed.

(** X17: on a collection without duplicates, [advance_frame] leaves a
    collection without duplicates, whose entities are all not destroyed,
    and every entity it took out is destroyed; the other attributes of
    the scene are untouched. *)
Theorem advance_frame_keeps_distinct (delta_time : float) (st : Scene.store E)
    (self : Scene.Scene) :
  NoDup (Scene.entities self) ->
  exists st' self',
    Scene.advance_frame delta_time (st, self) = (Returns tt, (st', self')) /\
    NoDup (Scene.entities self') /\
    (forall o, o ∈ Scene.entities self' ->
       o ∈ Scene.entities self /\ Entity._is_destroyed (st' o) = false) /\
    (forall o, o ∈ Scene.entities self -> o ∉ Scene.entities self' ->
       Entity._is_destroyed (st' o) = true) /\
    Scene.is_paused self' = Scene.is_paused self /\
    Scene.type self' = Scene.type self.
Proof.
  intros Hnd.
  pose proof (advance_loop_spec delta_time (Scene.entities self) [] st self
                eq_refl Hnd) as Hrun.
  eexists _, _. split.
  { unfold Scene.advance_frame. unfold mbind at 1. unfold M_bind at 1.
    unfold get at 1. cbv beta iota. exact Hrun. }
  cbn [Scene.entities Scene.set_entities app].
  split; [now apply NoDup_filter|]. split; [|split; [|split; reflexivity]].
  - intros o Ho. apply list_elem_of_filter in Ho. tauto.
  - intros o Ho Hno. rewrite list_elem_of_filter in Hno.
    destruct (Entity._is_destroyed _); [reflexivity|]. exfalso. tauto.
Qed.

Lemma colliderect_sym a b : Entity.colliderect a b = Entity.colliderect b a.
Proof.
  unfold Entity.colliderect.
  destruct (Entity.x a <? Entity.x b + Entity.w b)%Z,
    (Entity.x b <? Entity.x a + Entity.w a)%Z,
    (Entity.y a <? Entity.y b + Entity.h b)%Z,
    (Entity.y b <? Entity.y a + Entity.h a)%Z; reflexivity.
Qed.

Lemma list_remove_elem_of_ne (x y : Scene.ref) : forall l l',
  list_remove x l = Some l' -> y <> x -> y ∈ l -> y ∈ l'.
Proof.
  induction l as [|z l IH]; intros l' Hrm Hne Hin; [discriminate|].
  simpl in Hrm. destruct (decide (z = x)) as [->|Hzx].
  - injection Hrm as <-. apply elem_of_cons in Hin as [->|Hin];
      [contradiction|assumption].
  - destruct (list_remove x l) as [l0|] eqn:Hl; [|discriminate].
    injection Hrm as <-. apply elem_of_cons in Hin as [->|Hin]; [left|].
    right. now apply (IH l0).
Qed.

Lemma list_remove_sublist (x : Scene.ref) : forall l l',
  list_remove x l = Some l' -> l' `sublist_of` l /\ length l = S (length l').
Proof.
  induction l as [|z l IH]; intros l' Hrm; [discriminate|].
  simpl in Hrm. destruct (decide (z = x)) as [->|Hzx].
  - injection Hrm as <-. split; [apply sublist_cons; reflexivity|reflexivity].
  - destruct (list_remove x l) as [l0|] eqn:Hl; [|discriminate].
    injection Hrm as <-. destruct (IH l0 eq_refl) as [Hs Hlen].
    split; [now apply sublist_skip|simpl; now rewrite Hlen].
Qed.

(** X18: collisions are symmetric: if [b] is among the entities
    [test_collisions(a)] returns, then [test_collisions(b)] returns too
    and [a] is among its entities. *)
Theorem test_collisions_symmetric (self : Scene.Scene) (st : Scene.store E)
    (a b : Scene.ref) (la : list Scene.ref) :
  Scene.test_collisions self st a = Returns la -> b ∈ la ->
  exists lb, Scene.test_collisions self st b = Returns lb /\ a ∈ lb.
Proof.
  unfold Scene.test_collisions. intros Ha Hb.
  destruct (list_remove a (Scene.entities self)) as [ca|] eqn:Hra;
    [|discriminate].
  injection Ha as <-. apply list_elem_of_filter in Hb as [Hov Hbin].
  destruct (decide (b = a)) as [->|Hne].
  - rewrite Hra. eexists. split; [reflexivity|].
    apply list_elem_of_filter. split; assumption.
  - assert (Hbl : b ∈ Scene.entities self).
    { destruct (list_remove_sublist _ _ _ Hra) as [Hs _].
      eapply elem_of_submseteq; [exact Hbin|now apply sublist_submseteq]. }
    assert (Hal : a ∈ Scene.entities self).
    { apply dec_stable. intros Hn. apply list_remove_None in Hn. congruence. }
    destruct (list_remove_Some b _ Hbl) as (cb & Hrb & _ & _).
    rewrite Hrb. eexists. split; [reflexivity|].
    apply list_elem_of_filter. split.
    + now rewrite colliderect_sym.
    + apply (list_remove_elem_of_ne b a _ _ Hrb); [congruence|assumption].
Qed.

(** X19: what [test_collisions(e)] returns is a sub-list of the scene's
    entities, in their order, strictly shorter than the collection, and
    each of its entities overlaps [e]. *)
Theorem test_collisions_bounded (self : Scene.Scene) (st : Scene.store E)
    (e : Scene.ref) (l : list Scene.ref) :
  Scene.test_collisions self st e = Returns l ->
  l `sublist_of` Scene.entities self /\
  length l < length (Scene.entities self) /\
  forall o, o ∈ l ->
    Entity.colliderect (Entity.hitbox (st e)) (Entity.hitbox (st o)) = true.
Proof.
  unfold Scene.test_collisions. intros He.
  destruct (list_remove e (Scene.entities self)) as [c|] eqn:Hr; [|discriminate].
  injection He as <-. destruct (list_remove_sublist _ _ _ Hr) as [Hs Hlen].
  split; [|split].
  - transitivity c; [apply sublist_filter|exact Hs].
  - rewrite Hlen. apply Nat.lt_succ_r. apply length_filter.
  - intros o Ho. apply list_elem_of_filter in Ho. tauto.
Qed.

End SceneFacts2.

Lemma register_all_other classes : forall m name,
  name ∉ map (fun cn => Scene.__name__ (fst cn)) classes ->
  Scene.registered_scenes (register_all classes m) !! name
  = Scene.registered_scenes m !! name.
Proof.
  induction classes as [|[c n] cs IH]; intros m name Hn; [reflexivity|].
  simpl in Hn. apply not_elem_of_cons in Hn as [Hne Hn].
  unfold register_all in *. simpl. rewrite IH by exact Hn.
  simpl. now apply lookup_insert_ne.
Qed.

(** X20: after any sequence of [register_scene], [get_scene(name)] raises
    [KeyError] for a name no registered class has, and otherwise returns
    the instance made by the last registration of a class of that name. *)
Theorem get_scene_after_registrations (classes : list (Scene.class * nat))
    (name : string) :
  (name ∉ map (fun cn => Scene.__name__ (fst cn)) classes ->
   Scene.get_scene (register_all classes Scene.SceneManager__init__) name
   = Raises KeyError) /\
  (forall before c n after,
     classes = before ++ (c, n) :: after ->
     Scene.__name__ c = name ->
     name ∉ map (fun cn => Scene.__name__ (fst cn)) after ->
     Scene.get_scene (register_all classes Scene.SceneManager__init__) name
     = Returns (Scene.Instance (Scene.__init__ c n []))).
Proof.
  unfold Scene.get_scene. split.
  - intros Hn. now rewrite register_all_other.
  - intros before c n after -> Hc Hn.
    unfold register_all. rewrite foldl_app. simpl.
    fold (register_all before Scene.SceneManager__init__).
    fold (register_all after
            (Scene.register_scene c n
               (register_all before Scene.SceneManager__init__))).
    rewrite register_all_other by exact Hn. simpl.
    rewrite <- Hc, lookup_insert_eq. reflexivity.
Qed.

Lemma advance_frame_keeps_distinct_witness :
  NoDup [0%nat; 1%nat] /\
  exists st' self',
    Scene.advance_frame 1%float
      (Examples.nursery, Examples.scene_with [0%nat; 1%nat])
    = (Returns tt, (st', self')) /\
    NoDup (Scene.entities self').
Proof.
  assert (Hnd : NoDup [0%nat; 1%nat])
    by (apply (bool_decide_unpack _); vm_compute; exact I).
  split; [exact Hnd|].
  destruct (advance_frame_keeps_distinct 1%float Examples.nursery
              (Examples.scene_with [0%nat; 1%nat]) Hnd)
    as (st' & self' & Hrun & Hd & _).
  exists st', self'. split; [exact Hrun|exact Hd].
Defined.

Lemma test_collisions_symmetric_witness :
  Scene.test_collisions (Examples.scene_with [0%nat; 1%nat]) Examples.nursery
    0%nat = Returns [1%nat] /\
  1%nat ∈ [1%nat] /\
  exists lb,
    Scene.test_collisions (Examples.scene_with [0%nat; 1%nat])
      Examples.nursery 1%nat = Returns lb /\ 0%nat ∈ lb.
Proof.
  assert (Ha : Scene.test_collisions (Examples.scene_with [0%nat; 1%nat])
                 Examples.nursery 0%nat = Returns [1%nat]) by reflexivity.
  assert (Hb : 1%nat ∈ [1%nat]) by apply list_elem_of_here.
  split; [exact Ha|]. split; [exact Hb|].
  exact (test_collisions_symmetric (Examples.scene_with [0%nat; 1%nat])
           Examples.nursery 0%nat 1%nat [1%nat] Ha Hb).
Defined.

Lemma test_collisions_bounded_witness :
  Scene.test_collisions (Examples.scene_with [0%nat; 1%nat]) Examples.nursery
    0%nat = Returns [1%nat] /\
  length [1%nat] < length (Scene.entities (Examples.scene_with [0%nat; 1%nat])).
Proof.
  assert (Ha : Scene.test_collisions (Examples.scene_with [0%nat; 1%nat])
                 Examples.nursery 0%nat = Returns [1%nat]) by reflexivity.
  split; [exact Ha|].
  exact (proj1 (proj2 (test_collisions_bounded
                         (Examples.scene_with [0%nat; 1%nat])
                         Examples.nursery 0%nat [1%nat] Ha))).
Defined.

(** ** The name of a scene *)

(** C8: the [name] property of [scene.py] was meant to be the name of the
    instance's own class.  It is the name of [Scene] for every instance:
    an instance of a subclass named otherwise, such as [Title], has a
    [name] that differs from its class's [__name__]. *)
Theorem scene_name_is_Scene :
  (forall self : Scene.Scene, Scene.name self = "Scene") /\
  (forall (cls : Scene.class) (n : nat) (kw : Scene.kwargs),
     Scene.__name__ cls <> "Scene" ->
     Scene.name (Scene.__init__ cls n kw)
     <> Scene.__name__ (Scene.type (Scene.__init__ cls n kw))) /\
  Scene.name (Scene.__init__ Examples.Title 0 []) = "Scene" /\
  Scene.__name__ (Scene.type (Scene.__init__ Examples.Title 0 [])) = "Title".
Proof.
  split; [reflexivity|]. split; [|split; reflexivity].
  intros cls n kw Hne. unfold Scene.name. simpl. congruence.
Qed.

(** ** Dictionaries *)

Section DictFacts.
Context {V : Type}.
Implicit Types (d : dict V) (k : string) (v : V).

Lemma dict_lookup_empty k : (∅ : dict V) !! k = None.
Proof. reflexivity. Qed.

Lemma dict_lookup_insert_eq d k v : <[k := v]> d !! k = Some v.
Proof.
  unfold lookup, insert, dict_lookup, dict_insert.
  induction d as [|[k' v'] d IH]; simpl.
  - now rewrite decide_True.
  - destruct (decide (k' = k)) as [->|Hne]; simpl.
    + now rewrite decide_True.
    + now rewrite decide_False.
Qed.

Lemma dict_lookup_insert_ne d k k' v :
  k <> k' -> <[k := v]> d !! k' = d !! k'.
Proof.
  intros Hne. unfold lookup, insert, dict_lookup, dict_insert.
  induction d as [|[k0 v0] d IH]; simpl.
  - now rewrite decide_False.
  - destruct (decide (k0 = k)) as [->|Hne0]; simpl.
    + now rewrite !decide_False.
    + now rewrite IH.
Qed.

Lemma dict_lookup_delete_eq d k : delete k d !! k = None.
Proof.
  unfold lookup, delete, dict_lookup, dict_delete, dict_delitem.
  induction d as [|[k' v'] d IH]; [reflexivity|].
  rewrite filter_cons. simpl. destruct (decide (k' <> k)) as [Hne|Heq].
  - simpl. now rewrite decide_False.
  - exact IH.
Qed.

Lemma dict_lookup_delete_ne d k k' : k <> k' -> delete k d !! k' = d !! k'.
Proof.
  intros Hne. unfold lookup, delete, dict_lookup, dict_delete, dict_delitem.
  induction d as [|[k0 v0] d IH]; [reflexivity|].
  rewrite filter_cons. simpl. destruct (decide (k0 <> k)) as [Hne0|Heq].
  - simpl. now rewrite IH.
  - apply dec_stable in Heq. subst k0. now rewrite decide_False.
Qed.

Lemma dict_delete_absent d k : d !! k = None -> delete k d = d.
Proof.
  unfold lookup, delete, dict_lookup, dict_delete, dict_delitem.
  induction d as [|[k' v'] d IH]; [reflexivity|]. simpl.
  destruct (decide (k' = k)) as [->|Hne]; [discriminate|].
  intros Hd. rewrite filter_cons, decide_True by exact Hne.
  now rewrite IH.
Qed.

Lemma dict_delete_insert_id d k v :
  d !! k = None -> delete k (<[k := v]> d) = d.
Proof.
  unfold lookup, delete, insert, dict_lookup, dict_delete, dict_insert,
    dict_delitem.
  induction d as [|[k' v'] d IH]; simpl.
  - intros _. rewrite filter_cons, decide_False by (simpl; tauto). reflexivity.
  - destruct (decide (k' = k)) as [->|Hne]; [discriminate|].
    intros Hd. rewrite filter_cons, decide_True by exact Hne.
    now rewrite IH.
Qed.

Lemma dict_insert_insert_eq d k v v' :
  <[k := v']> (<[k := v]> d) = <[k := v']> d.
Proof.
  unfold insert, dict_insert.
  induction d as [|[k0 v0] d IH]; simpl.
  - now rewrite decide_True.
  - destruct (decide (k0 = k)) as [->|Hne]; simpl.
    + now rewrite decide_True.
    + now rewrite decide_False, IH.
Qed.

Lemma dict_keys_lookup d k : k ∈ dict_keys d -> is_Some (d !! k).
Proof.
  unfold dict_keys, lookup, dict_lookup.
  induction d as [|[k' v'] d IH]; simpl.
  - intros Hk. now apply elem_of_nil in Hk.
  - intros Hk. destruct (decide (k' = k)); [eauto|].
    apply elem_of_cons in Hk as [->|Hk]; [congruence|auto].
Qed.

Lemma dict_lookup_keys d k v : d !! k = Some v -> k ∈ dict_keys d.
Proof.
  unfold dict_keys, lookup, dict_lookup.
  induction d as [|[k' v'] d IH]; simpl; [discriminate|].
  destruct (decide (k' = k)) as [->|Hne]; [intros _; left|].
  intros Hd. right. auto.
Qed.

End DictFacts.

(** ** The client of [SakuyaEngine/client.py] *)

Lemma bind_returns {S A B} (m : M S A) (k : A -> M S B) s a s' :
  m s = (Returns a, s') -> (m ≫= k) s = k a s'.
Proof. intros Hm. unfold mbind, M_bind. now rewrite Hm. Qed.

Lemma bind_raises {S A B} (m : M S A) (k : A -> M S B) s e s' :
  m s = (Raises e, s') -> (m ≫= k) s = (Raises e, s').
Proof. intros Hm. unfold mbind, M_bind. now rewrite Hm. Qed.

Lemma after_removal_set_queue q self s :
  after_removal (Client.set_deleted_scenes_queue q self) s
  = Client.set_deleted_scenes_queue q (after_removal self s).
Proof.
  unfold after_removal. simpl. now destruct (Client.running_scenes self !! s).
Qed.

Lemma foldl_after_removal_set_queue q l : forall self,
  foldl after_removal (Client.set_deleted_scenes_queue q self) l
  = Client.set_deleted_scenes_queue q (foldl after_removal self l).
Proof.
  induction l as [|s l IH]; intros self; [reflexivity|].
  simpl. now rewrite after_removal_set_queue, IH.
Qed.

Lemma list_remove_head {A} `{EqDecision A} (x : A) l :
  list_remove x (x :: l) = Some l.
Proof. simpl. now rewrite decide_True. Qed.

(** The removal loop over a snapshot that is the queue itself. *)
Lemma delete_loop_spec : forall q self,
  Client.deleted_scenes_queue self = q ->
  for_each q (fun s =>
    try_except
      (self ← get;
       match list_remove s (Client.deleted_scenes_queue self) with
       | Some q => modify (Client.set_deleted_scenes_queue q)
       | None => raise ValueError
       end;;
       Client.running_scenes_delitem s)
      KeyError
      (Client.emit (Client.print_missing_scene s))) self
  = (Returns tt,
     Client.set_deleted_scenes_queue [] (foldl after_removal self q)).
Proof.
  induction q as [|s q IH]; intros self Hq.
  - simpl. destruct self; simpl in *; now subst.
  - cbn [for_each]. unfold mbind at 1. unfold M_bind at 1.
    assert (Hstep :
      try_except
        (self0 ← get;
         match list_remove s (Client.deleted_scenes_queue self0) with
         | Some q0 => modify (Client.set_deleted_scenes_queue q0)
         | None => raise ValueError
         end;;
         Client.running_scenes_delitem s)
        KeyError (Client.emit (Client.print_missing_scene s)) self
      = (Returns tt, after_removal (Client.set_deleted_scenes_queue q self) s)).
    { unfold try_except, Client.running_scenes_delitem, after_removal.
      unfold mbind, M_bind, get, modify, raise, Client.emit. simpl.
      rewrite Hq, list_remove_head. simpl.
      destruct (Client.running_scenes self !! s); reflexivity. }
    rewrite Hstep, IH.
    + rewrite after_removal_set_queue, foldl_after_removal_set_queue.
      reflexivity.
    + rewrite after_removal_set_queue. reflexivity.
Qed.

Lemma delete_scenes_in_queue_unfold self :
  Client.delete_scenes_in_queue self
  = (Returns tt,
     Client.set_deleted_scenes_queue []
       (foldl after_removal self (Client.deleted_scenes_queue self))).
Proof.
  unfold Client.delete_scenes_in_queue. unfold mbind at 1. unfold M_bind at 1.
  unfold get at 1. cbv beta iota. now apply delete_loop_spec.
Qed.

Lemma foldl_after_removal_lookup q : forall self k,
  Client.running_scenes (foldl after_removal self q) !! k
  = if decide (k ∈ q) then None else Client.running_scenes self !! k.
Proof.
  induction q as [|s q IH]; intros self k.
  - cbn [foldl]. rewrite decide_False by apply not_elem_of_nil. reflexivity.
  - cbn [foldl]. rewrite IH. destruct (decide (k ∈ q)) as [Hin|Hnin].
    + rewrite decide_True by now right. reflexivity.
    + unfold after_removal. destruct (decide (k = s)) as [->|Hne].
      * rewrite decide_True by now left.
        destruct (Client.running_scenes self !! s) eqn:Hs; simpl.
        -- apply dict_lookup_delete_eq.
        -- exact Hs.
      * rewrite decide_False
          by (intros Hin; apply elem_of_cons in Hin as [?|?]; tauto).
        destruct (Client.running_scenes self !! s); simpl;
          [apply dict_lookup_delete_ne; congruence | reflexivity].
Qed.

Lemma foldl_after_removal_empty q : forall self,
  Client.running_scenes self = ∅ ->
  foldl after_removal self q
  = Client.set_trace
      (Client.trace self ++ map Client.print_missing_scene q) self.
Proof.
  induction q as [|s q IH]; intros self He.
  - simpl. rewrite app_nil_r. now destruct self.
  - cbn [foldl]. unfold after_removal at 2. rewrite He, dict_lookup_empty.
    rewrite IH by exact He. simpl. now rewrite <- app_assoc.
Qed.

Lemma guard_never_fires {V} `{EqDecision V} (d : dict V) :
  py_eq (Dict d) (List []) = false.
Proof. reflexivity. Qed.

Lemma remove_scene_not_active_aux (self : Client.Client)
    (scene_name : string) (kw : Scene.kwargs) :
  Client.running_scenes self !! scene_name = None ->
  Client.remove_scene scene_name kw self = (Raises SceneNotActiveError, self).
Proof.
  intros Hn. unfold Client.remove_scene, try_except,
    Client.running_scenes_getitem.
  unfold mbind, M_bind, get. simpl. rewrite Hn. reflexivity.
Qed.

Lemma remove_scene_active_aux (self : Client.Client) (scene_name : string)
    (kw : Scene.kwargs) (scene : EngineScene.Scene) (kw0 : Scene.kwargs) :
  Client.running_scenes self !! scene_name = Some (scene, kw0) ->
  Client.remove_scene scene_name kw self
  = (Returns tt,
     Client.set_deleted_scenes_queue
       (Client.deleted_scenes_queue self ++ [EngineScene.name scene])
       (Client.set_trace
          (Client.trace self
             ++ [Client.Hook (EngineScene.on_delete scene kw)])
          self)).
Proof.
  intros Hs. unfold Client.remove_scene, try_except,
    Client.running_scenes_getitem.
  unfold mbind, M_bind, get. simpl. rewrite Hs. reflexivity.
Qed.

Lemma add_scene_registered_aux (self : Client.Client) (scene_name : string)
    (kw : Scene.kwargs) (prototype : Scene.class) :
  EngineScene.registered_scenes (Client.scene_manager self) !! scene_name
  = Some prototype ->
  Client.add_scene scene_name kw self
  = (Returns tt,
     Client.set_running_scenes
       (<[Scene.__name__ prototype :=
            (EngineScene.__init__ prototype (Client.next_oid self), kw)]>
          (Client.running_scenes self))
       (Client.set_trace
          (Client.trace self
             ++ [Client.Hook
                   (EngineScene.on_awake
                      (EngineScene.__init__ prototype (Client.next_oid self))
                      kw)])
          (Client.set_next_oid (S (Client.next_oid self)) self))).
Proof.
  intros Hr. unfold Client.add_scene, Client.lift, EngineScene.get_scene.
  unfold mbind, M_bind, get. simpl. rewrite Hr. reflexivity.
Qed.

(** C7: for a name the scene manager has a prototype for, [add_scene]
    makes a new instance of the prototype, with an identity no object had
    before, calls [on_awake] on it with the keyword arguments, and stores
    it in the table under its [name], the name of its class; the registry
    is left as it was. *)
Theorem add_scene_fresh_instance (self : Client.Client) (scene_name : string)
    (kw : Scene.kwargs) (prototype : Scene.class) :
  EngineScene.registered_scenes (Client.scene_manager self) !! scene_name
  = Some prototype ->
  let scene := EngineScene.__init__ prototype (Client.next_oid self) in
  let self' := state_after (Client.add_scene scene_name kw) self in
  fst (Client.add_scene scene_name kw self) = Returns tt /\
  EngineScene.type scene = prototype /\
  (forall other : EngineScene.Scene,
     (EngineScene.oid other < Client.next_oid self)%nat -> other <> scene) /\
  (EngineScene.oid scene < Client.next_oid self')%nat /\
  Client.trace self'
  = Client.trace self ++ [Client.Hook (EngineScene.on_awake scene kw)] /\
  EngineScene.name scene = Scene.__name__ prototype /\
  Client.running_scenes self'
  = <[EngineScene.name scene := (scene, kw)]> (Client.running_scenes self) /\
  Client.running_scenes self' !! EngineScene.name scene = Some (scene, kw) /\
  Client.scene_manager self' = Client.scene_manager self.
Proof.
  intros Hr scene self'. subst self'. unfold state_after.
  rewrite (add_scene_registered_aux _ _ _ _ Hr). simpl.
  repeat split; try reflexivity.
  - intros other Hlt ->. simpl in Hlt. lia.
  - lia.
  - apply dict_lookup_insert_eq.
Qed.

Lemma add_scene_fresh_instance_witness :
  EngineScene.registered_scenes
    (Client.scene_manager Examples.client_with_Title) !! "Title"
  = Some Examples.Title /\
  Client.running_scenes
    (state_after (Client.add_scene "Title" []) Examples.client_with_Title)
  = <["Title" := (EngineScene.__init__ Examples.Title 0, [])]> ∅.
Proof.
  assert (H : EngineScene.registered_scenes
                (Client.scene_manager Examples.client_with_Title) !! "Title"
              = Some Examples.Title) by reflexivity.
  split; [exact H|].
  exact (proj1 (proj2 (proj2 (proj2 (proj2 (proj2 (proj2
           (add_scene_fresh_instance Examples.client_with_Title "Title" []
              Examples.Title H)))))))).
Defined.

(** C6: [remove_scene] raises [SceneNotActiveError] and changes nothing
    when the name is not in the table; otherwise it calls [on_delete] on
    the scene and queues its name, the table staying as it is until the
    removal loop of [main] takes the queued names out.  So [add_scene] and
    then [remove_scene] of a registered scene call [on_awake] and then
    [on_delete], the scene is still in the table, and after the queue was
    drained it is not, and one more [remove_scene] raises
    [SceneNotActiveError]; so it goes for "Title". *)
Theorem remove_scene_deferred :
  (forall (self : Client.Client) (scene_name : string) (kw : Scene.kwargs),
     Client.running_scenes self !! scene_name = None ->
     Client.remove_scene scene_name kw self
     = (Raises SceneNotActiveError, self)) /\
  (forall (self : Client.Client) (scene_name : string) (kw : Scene.kwargs)
          (scene : EngineScene.Scene) (kw0 : Scene.kwargs),
     Client.running_scenes self !! scene_name = Some (scene, kw0) ->
     Client.remove_scene scene_name kw self
     = (Returns tt,
        Client.set_deleted_scenes_queue
          (Client.deleted_scenes_queue self ++ [EngineScene.name scene])
          (Client.set_trace
             (Client.trace self
                ++ [Client.Hook (EngineScene.on_delete scene kw)])
             self))) /\
  (forall self : Client.Client,
     exists self',
       Client.delete_scenes_in_queue self = (Returns tt, self') /\
       Client.deleted_scenes_queue self' = [] /\
       forall k,
         Client.running_scenes self' !! k
         = if decide (k ∈ Client.deleted_scenes_queue self) then None
           else Client.running_scenes self !! k) /\
  (forall (self : Client.Client) (name : string) (cls : Scene.class)
          (kw kw' : Scene.kwargs),
     EngineScene.registered_scenes (Client.scene_manager self) !! name
     = Some cls ->
     Scene.__name__ cls = name ->
     let scene := EngineScene.__init__ cls (Client.next_oid self) in
     let c2 := state_after
                 (Client.add_scene name kw;; Client.remove_scene name kw')
                 self in
     let c3 := state_after Client.delete_scenes_in_queue c2 in
     fst ((Client.add_scene name kw;; Client.remove_scene name kw') self)
     = Returns tt /\
     Client.trace c2
     = Client.trace self
         ++ [Client.Hook (EngineScene.on_awake scene kw);
             Client.Hook (EngineScene.on_delete scene kw')] /\
     Client.running_scenes c2 !! name = Some (scene, kw) /\
     fst (Client.delete_scenes_in_queue c2) = Returns tt /\
     Client.running_scenes c3 !! name = None /\
     Client.remove_scene name [] c3 = (Raises SceneNotActiveError, c3)) /\
  (let title := EngineScene.__init__ Examples.Title 0 in
   let c2 := state_after
               (Client.add_scene "Title" [];; Client.remove_scene "Title" [])
               Examples.client_with_Title in
   let c3 := state_after Client.main_iteration c2 in
   Client.trace c2
   = [Client.Hook (EngineScene.on_awake title []);
      Client.Hook (EngineScene.on_delete title [])] /\
   Client.running_scenes c2 = {["Title" := (title, [])]} /\
   Client.deleted_scenes_queue c2 = ["Title"] /\
   fst (Client.main_iteration c2) = Returns tt /\
   Client.running_scenes c3 = ∅ /\
   fst (Client.remove_scene "Title" [] c3) = Raises SceneNotActiveError).
Proof.
  split; [exact remove_scene_not_active_aux|].
  split; [exact remove_scene_active_aux|].
  split; [|split].
  - intros self. eexists. split; [apply delete_scenes_in_queue_unfold|].
    split; [reflexivity|]. intros k. simpl. apply foldl_after_removal_lookup.
  - intros self name cls kw kw' Hr Hname scene c2 c3.
    pose proof (add_scene_registered_aux self name kw cls Hr) as Hadd.
    rewrite Hname in Hadd. fold scene in Hadd.
    set (c1 := Client.set_running_scenes _ _) in Hadd.
    assert (H1 : Client.running_scenes c1 !! name = Some (scene, kw))
      by apply dict_lookup_insert_eq.
    pose proof (remove_scene_active_aux c1 name kw' scene kw H1) as Hrem.
    assert (Hrun : (Client.add_scene name kw;; Client.remove_scene name kw')
                     self
                   = (Returns tt,
                      Client.set_deleted_scenes_queue
                        (Client.deleted_scenes_queue c1
                           ++ [EngineScene.name scene])
                        (Client.set_trace
                           (Client.trace c1
                              ++ [Client.Hook
                                    (EngineScene.on_delete scene kw')])
                           c1))).
    { rewrite (bind_returns _ _ _ _ _ Hadd). exact Hrem. }
    subst c3 c2. unfold state_after. rewrite Hrun.
    rewrite delete_scenes_in_queue_unfold. cbn [fst snd].
    split; [reflexivity|]. split; [|split; [exact H1|split; [reflexivity|]]].
    + subst c1. simpl. now rewrite <- app_assoc.
    + assert (Hgone : forall self0,
                name ∈ Client.deleted_scenes_queue self0 ->
                Client.running_scenes
                  (Client.set_deleted_scenes_queue []
                     (foldl after_removal self0
                        (Client.deleted_scenes_queue self0))) !! name = None).
      { intros self0 Hin. simpl. rewrite foldl_after_removal_lookup.
        now rewrite decide_True. }
      split.
      * apply Hgone. simpl. apply elem_of_app. right.
        unfold EngineScene.name. simpl. rewrite Hname. left.
      * apply remove_scene_not_active_aux. apply Hgone. simpl.
        apply elem_of_app. right. unfold EngineScene.name. simpl.
        rewrite Hname. left.
  - vm_compute. repeat split; reflexivity.
Qed.

(** C9: the loop was meant to raise [NoActiveSceneError] when the table of
    running scenes is empty.  The guard compares the table, a [dict], with
    the empty [list], which are never equal: with an empty table an
    iteration of either client raises nothing, polls the events, finds no
    scene to update and reaches the display update. *)
Theorem empty_table_raises_nothing :
  (forall (running : bool) (queue : list string)
          (m : EngineScene.SceneManager)
          (n : nat) (t : list Client.event),
     Client.main_iteration
       {| Client.is_running := running; Client.running_scenes := ∅;
          Client.deleted_scenes_queue := queue; Client.scene_manager := m;
          Client.next_oid := n; Client.trace := t |}
     = (Returns tt,
        {| Client.is_running := running; Client.running_scenes := ∅;
           Client.deleted_scenes_queue := []; Client.scene_manager := m;
           Client.next_oid := n;
           Client.trace :=
             t ++ [Client.pygame_event_get]
               ++ map Client.print_missing_scene queue
               ++ [Client.pygame_display_update] |})) /\
  (forall (running keep : bool) (m : Scene.SceneManager)
          (t : list OldClient.event),
     OldClient.main_iteration
       {| OldClient.is_running := running;
          OldClient.keep_aspect_ratio := keep;
          OldClient.running_scenes := ∅; OldClient.scene_manager := m;
          OldClient.trace := t |}
     = (Returns tt,
        {| OldClient.is_running := running;
           OldClient.keep_aspect_ratio := keep;
           OldClient.running_scenes := ∅; OldClient.scene_manager := m;
           OldClient.trace :=
             t ++ (if keep then [OldClient.pygame_event_get] else [])
               ++ [OldClient.pygame_display_flip] |})) /\
  fst (Client.main 1 Client.__init__) = Returns tt /\
  fst (OldClient.main 1 (OldClient.__init__ true)) = Returns tt.
Proof.
  split; [|split; [|split; vm_compute; reflexivity]].
  - intros running queue m n t.
    unfold Client.main_iteration. unfold mbind at 1. unfold M_bind at 1.
    unfold get at 1. cbv beta iota. rewrite guard_never_fires.
    unfold Client.update_scenes.
    unfold mbind, M_bind, get, Client.emit, modify. simpl.
    rewrite delete_scenes_in_queue_unfold.
    rewrite foldl_after_removal_empty by reflexivity. simpl.
    now rewrite <- !app_assoc.
  - intros running keep m t. unfold OldClient.main_iteration.
    unfold mbind, M_bind, get, OldClient.emit, modify. simpl.
    destruct keep; simpl.
    + now rewrite <- app_assoc.
    + reflexivity.
Qed.

(** ** Further facts about the clients *)

(** X2: the queue is drained without raising; afterwards it is empty, and
    the table holds what it held under the names that were not queued. *)
Lemma delete_scenes_in_queue_drains (self : Client.Client) :
  exists self',
    Client.delete_scenes_in_queue self = (Returns tt, self') /\
    Client.deleted_scenes_queue self' = [] /\
    forall k,
      Client.running_scenes self' !! k
      = if decide (k ∈ Client.deleted_scenes_queue self) then None
        else Client.running_scenes self !! k.
Proof.
  eexists. split; [apply delete_scenes_in_queue_unfold|].
  split; [reflexivity|]. intros k. simpl. apply foldl_after_removal_lookup.
Qed.

(** X3: [remove_scene] of a name that is not in the table raises
    [SceneNotActiveError] and changes nothing. *)
Lemma remove_scene_not_active (self : Client.Client) (scene_name : string)
    (kw : Scene.kwargs) :
  Client.running_scenes self !! scene_name = None ->
  Client.remove_scene scene_name kw self = (Raises SceneNotActiveError, self).
Proof. apply remove_scene_not_active_aux. Qed.

Lemma remove_scene_not_active_witness :
  Client.running_scenes Client.__init__ !! "Title" = None /\
  Client.remove_scene "Title" [] Client.__init__
  = (Raises SceneNotActiveError, Client.__init__).
Proof.
  assert (H : Client.running_scenes Client.__init__ !! "Title" = None)
    by reflexivity.
  split; [exact H|].
  exact (remove_scene_not_active Client.__init__ "Title" [] H).
Defined.

(** X4: [remove_scene] of a name that is in the table calls [on_delete] on its
    scene and queues the scene's [name]; the table is left as it is. *)
Lemma remove_scene_active (self : Client.Client) (scene_name : string)
    (kw : Scene.kwargs) (scene : EngineScene.Scene) (kw0 : Scene.kwargs) :
  Client.running_scenes self !! scene_name = Some (scene, kw0) ->
  Client.remove_scene scene_name kw self
  = (Returns tt,
     Client.set_deleted_scenes_queue
       (Client.deleted_scenes_queue self ++ [EngineScene.name scene])
       (Client.set_trace
          (Client.trace self
             ++ [Client.Hook (EngineScene.on_delete scene kw)])
          self)).
Proof. apply remove_scene_active_aux. Qed.

Lemma remove_scene_active_witness :
  Client.running_scenes Examples.client_running_Title !! "Title"
  = Some (EngineScene.__init__ Examples.Title 0, []) /\
  fst (Client.remove_scene "Title" [] Examples.client_running_Title)
  = Returns tt.
Proof.
  assert (H : Client.running_scenes Examples.client_running_Title !! "Title"
              = Some (EngineScene.__init__ Examples.Title 0, []))
    by reflexivity.
  split; [exact H|].
  exact (f_equal fst
           (remove_scene_active Examples.client_running_Title "Title" []
              (EngineScene.__init__ Examples.Title 0) [] H)).
Defined.

(** X5: [replace_scene] of a scene that is not active raises
    [SceneNotActiveError], and the new scene is not added. *)
Lemma replace_scene_not_active (self : Client.Client)
    (old_scene_name new_scene_name : string) (kw : Scene.kwargs) :
  Client.running_scenes self !! old_scene_name = None ->
  Client.replace_scene old_scene_name new_scene_name kw self
  = (Raises SceneNotActiveError, self).
Proof.
  intros Hn. unfold Client.replace_scene, try_except.
  unfold mbind at 1. unfold M_bind at 1.
  rewrite remove_scene_not_active_aux by exact Hn. reflexivity.
Qed.

Lemma replace_scene_not_active_witness :
  Client.running_scenes Examples.client_with_Title !! "Menu" = None /\
  Client.replace_scene "Menu" "Title" [] Examples.client_with_Title
  = (Raises SceneNotActiveError, Examples.client_with_Title).
Proof.
  assert (H : Client.running_scenes Examples.client_with_Title !! "Menu" = None)
    by reflexivity.
  split; [exact H|].
  exact (replace_scene_not_active Examples.client_with_Title
           "Menu" "Title" [] H).
Defined.

(** X22: [replace_scene(old, new)] with [old] active and [new] not
    registered raises [SceneNotActiveError] although [old] is active: the
    [KeyError] of the registry is caught by the same handler, after
    [on_delete] was called on [old] and [old] was queued for removal. *)
Theorem replace_scene_unregistered_new (self : Client.Client)
    (old_scene_name new_scene_name : string) (kw : Scene.kwargs)
    (scene : EngineScene.Scene) (kw0 : Scene.kwargs) :
  Client.running_scenes self !! old_scene_name = Some (scene, kw0) ->
  EngineScene.registered_scenes (Client.scene_manager self) !! new_scene_name
  = None ->
  Client.replace_scene old_scene_name new_scene_name kw self
  = (Raises SceneNotActiveError,
     Client.set_deleted_scenes_queue
       (Client.deleted_scenes_queue self ++ [EngineScene.name scene])
       (Client.set_trace
          (Client.trace self
             ++ [Client.Hook (EngineScene.on_delete scene [])])
          self)).
Proof.
  intros Hold Hnew.
  pose proof (remove_scene_active_aux self old_scene_name [] scene kw0 Hold)
    as Hrem.
  set (self1 := Client.set_deleted_scenes_queue _ _) in *.
  assert (Hadd : Client.add_scene new_scene_name kw self1
                 = (Raises KeyError, self1)).
  { unfold Client.add_scene. erewrite bind_returns; [|reflexivity].
    apply bind_raises. unfold Client.lift, EngineScene.get_scene. simpl.
    now rewrite Hnew. }
  unfold Client.replace_scene, try_except.
  rewrite (bind_returns _ _ _ _ _ Hrem), Hadd. reflexivity.
Qed.

Lemma replace_scene_unregistered_new_witness :
  Client.running_scenes Examples.client_running_Title !! "Title"
  = Some (EngineScene.__init__ Examples.Title 0, []) /\
  EngineScene.registered_scenes
    (Client.scene_manager Examples.client_running_Title) !! "Menu" = None /\
  fst (Client.replace_scene "Title" "Menu" [] Examples.client_running_Title)
  = Raises SceneNotActiveError.
Proof.
  assert (H1 : Client.running_scenes Examples.client_running_Title !! "Title"
               = Some (EngineScene.__init__ Examples.Title 0, []))
    by reflexivity.
  assert (H2 : EngineScene.registered_scenes
                 (Client.scene_manager Examples.client_running_Title)
                 !! "Menu" = None) by reflexivity.
  split; [exact H1|]. split; [exact H2|].
  exact (f_equal fst
           (replace_scene_unregistered_new Examples.client_running_Title
              "Title" "Menu" [] _ _ H1 H2)).
Defined.

(** X23: [add_scene] of a name whose scene is already running makes a
    second instance, wakes it and puts it in the place of the first in the
    table; [on_delete] is not called on the first, and nothing is queued. *)
Theorem add_scene_twice_replaces (self : Client.Client) (scene_name : string)
    (kw1 kw2 : Scene.kwargs) (prototype : Scene.class) :
  EngineScene.registered_scenes (Client.scene_manager self) !! scene_name
  = Some prototype ->
  let first := EngineScene.__init__ prototype (Client.next_oid self) in
  let second := EngineScene.__init__ prototype (S (Client.next_oid self)) in
  let self' :=
    state_after
      (Client.add_scene scene_name kw1;; Client.add_scene scene_name kw2)
      self in
  fst ((Client.add_scene scene_name kw1;; Client.add_scene scene_name kw2)
         self) = Returns tt /\
  first <> second /\
  Client.trace self'
  = Client.trace self
      ++ [Client.Hook (EngineScene.on_awake first kw1);
          Client.Hook (EngineScene.on_awake second kw2)] /\
  Client.running_scenes self'
  = <[EngineScene.name second := (second, kw2)]> (Client.running_scenes self) /\
  Client.deleted_scenes_queue self' = Client.deleted_scenes_queue self.
Proof.
  intros Hr first second self'.
  pose proof (add_scene_registered_aux self scene_name kw1 prototype Hr)
    as Hadd1.
  set (c1 := Client.set_running_scenes _ _) in Hadd1.
  assert (Hr1 : EngineScene.registered_scenes (Client.scene_manager c1)
                  !! scene_name = Some prototype) by exact Hr.
  pose proof (add_scene_registered_aux c1 scene_name kw2 prototype Hr1)
    as Hadd2.
  assert (Hrun : (Client.add_scene scene_name kw1;;
                  Client.add_scene scene_name kw2) self
                 = Client.add_scene scene_name kw2 c1)
    by exact (bind_returns _ _ _ _ _ Hadd1).
  subst self'. unfold state_after. rewrite Hrun, Hadd2. simpl.
  split; [reflexivity|]. split; [|split; [|split; [|reflexivity]]].
  - subst first second. intros [= Hoid]. lia.
  - now rewrite <- app_assoc.
  - apply dict_insert_insert_eq.
Qed.

Lemma add_scene_twice_replaces_witness :
  EngineScene.registered_scenes
    (Client.scene_manager Examples.client_with_Title) !! "Title"
  = Some Examples.Title /\
  Client.running_scenes
    (state_after
       (Client.add_scene "Title" [];; Client.add_scene "Title" [])
       Examples.client_with_Title)
  = <["Title" := (EngineScene.__init__ Examples.Title 1, [])]> ∅.
Proof.
  assert (H : EngineScene.registered_scenes
                (Client.scene_manager Examples.client_with_Title) !! "Title"
              = Some Examples.Title) by reflexivity.
  split; [exact H|].
  exact (proj1 (proj2 (proj2 (proj2
           (add_scene_twice_replaces Examples.client_with_Title "Title" [] []
              Examples.Title H))))).
Defined.

(** X24: [add_scene] of a name the scene manager does not know raises
    [KeyError], before any instance is made or hook called, and changes
    nothing. *)
Theorem add_scene_unregistered (self : Client.Client) (scene_name : string)
    (kw : Scene.kwargs) :
  EngineScene.registered_scenes (Client.scene_manager self) !! scene_name
  = None ->
  Client.add_scene scene_name kw self = (Raises KeyError, self).
Proof.
  intros Hn. unfold Client.add_scene, Client.lift, EngineScene.get_scene.
  unfold mbind, M_bind, get. simpl. rewrite Hn. reflexivity.
Qed.

Lemma add_scene_unregistered_witness :
  EngineScene.registered_scenes
    (Client.scene_manager Examples.client_with_Title) !! "Menu" = None /\
  Client.add_scene "Menu" [] Examples.client_with_Title
  = (Raises KeyError, Examples.client_with_Title).
Proof.
  assert (H : EngineScene.registered_scenes
                (Client.scene_manager Examples.client_with_Title) !! "Menu"
              = None) by reflexivity.
  split; [exact H|].
  exact (add_scene_unregistered Examples.client_with_Title "Menu" [] H).
Defined.

(** ** The earlier client *)

(** X6: the earlier client's [add_scene] wakes the registry's own instance and
    stores that same instance, under "Scene". *)
Lemma old_add_scene_shares_instance (self : OldClient.Client)
    (cls : Scene.class) (n : nat) (kw : Scene.kwargs) :
  let instance := Scene.__init__ cls n [] in
  OldClient.add_scene (Scene.__name__ cls) kw
    {| OldClient.is_running := OldClient.is_running self;
       OldClient.keep_aspect_ratio := OldClient.keep_aspect_ratio self;
       OldClient.running_scenes := OldClient.running_scenes self;
       OldClient.scene_manager :=
         Scene.register_scene cls n (OldClient.scene_manager self);
       OldClient.trace := OldClient.trace self |}
  = (Returns tt,
     {| OldClient.is_running := OldClient.is_running self;
        OldClient.keep_aspect_ratio := OldClient.keep_aspect_ratio self;
        OldClient.running_scenes :=
          <["Scene" := (instance, kw)]> (OldClient.running_scenes self);
        OldClient.scene_manager :=
          Scene.register_scene cls n (OldClient.scene_manager self);
        OldClient.trace :=
          OldClient.trace self
            ++ [OldClient.Hook (Scene.on_awake instance kw)] |}).
Proof.
  intros instance. unfold OldClient.add_scene, OldClient.get_scene_instance,
    Scene.get_scene.
  unfold mbind, M_bind, get, OldClient.emit, modify. simpl.
  rewrite lookup_insert_eq. reflexivity.
Qed.

Lemma old_get_scene_instance self name s :
  Scene.registered_scenes (OldClient.scene_manager self) !! name
  = Some (Scene.Instance s) ->
  OldClient.get_scene_instance name self = (Returns s, self).
Proof.
  intros Hr. unfold OldClient.get_scene_instance, Scene.get_scene.
  unfold mbind, M_bind, get. simpl. now rewrite Hr.
Qed.

Lemma old_add_scene_spec self name kw s :
  Scene.registered_scenes (OldClient.scene_manager self) !! name
  = Some (Scene.Instance s) ->
  OldClient.add_scene name kw self
  = (Returns tt,
     OldClient.set_running_scenes
       (<["Scene" := (s, kw)]> (OldClient.running_scenes self))
       (OldClient.set_trace
          (OldClient.trace self ++ [OldClient.Hook (Scene.on_awake s kw)])
          self)).
Proof.
  intros Hr. unfold OldClient.add_scene.
  rewrite (bind_returns _ _ _ _ _ (old_get_scene_instance _ _ _ Hr)).
  reflexivity.
Qed.

Lemma old_remove_scene_spec self name kw s :
  Scene.registered_scenes (OldClient.scene_manager self) !! name
  = Some (Scene.Instance s) ->
  OldClient.remove_scene name kw self
  = match OldClient.running_scenes self !! "Scene" with
    | Some _ =>
        (Returns tt,
         OldClient.set_running_scenes
           (delete "Scene" (OldClient.running_scenes self))
           (OldClient.set_trace
              (OldClient.trace self ++ [OldClient.Hook (Scene.on_delete s kw)])
              self))
    | None =>
        (Raises KeyError,
         OldClient.set_trace
           (OldClient.trace self ++ [OldClient.Hook (Scene.on_delete s kw)])
           self)
    end.
Proof.
  intros Hr. unfold OldClient.remove_scene.
  rewrite (bind_returns _ _ _ _ _ (old_get_scene_instance _ _ _ Hr)).
  unfold mbind, M_bind, get, OldClient.emit, modify. simpl.
  unfold Scene.name. simpl.
  destruct (OldClient.running_scenes self !! "Scene"); reflexivity.
Qed.

(** X25: on the earlier client, [add_scene(name)] followed by
    [remove_scene(name)], for a registered scene and with no entry
    "Scene" before, calls [on_awake] then [on_delete] on the registered
    instance and leaves the table as it was: the removal is immediate. *)
Theorem old_add_then_remove (self : OldClient.Client) (name : string)
    (kw kw' : Scene.kwargs) (s : Scene.Scene) :
  Scene.registered_scenes (OldClient.scene_manager self) !! name
  = Some (Scene.Instance s) ->
  OldClient.running_scenes self !! "Scene" = None ->
  (OldClient.add_scene name kw;; OldClient.remove_scene name kw') self
  = (Returns tt,
     OldClient.set_trace
       (OldClient.trace self
          ++ [OldClient.Hook (Scene.on_awake s kw);
              OldClient.Hook (Scene.on_delete s kw')])
       self).
Proof.
  intros Hr Hn.
  rewrite (bind_returns _ _ _ _ _ (old_add_scene_spec self name kw s Hr)).
  rewrite (old_remove_scene_spec _ name kw' s) by exact Hr.
  simpl. rewrite dict_lookup_insert_eq. f_equal.
  rewrite dict_delete_insert_id by exact Hn.
  destruct self; simpl. now rewrite <- app_assoc.
Qed.

Lemma old_add_then_remove_witness :
  Scene.registered_scenes
    (OldClient.scene_manager Examples.old_client_with_scenes) !! "Title"
  = Some (Scene.Instance (Scene.__init__ Examples.Title 0 [])) /\
  OldClient.running_scenes Examples.old_client_with_scenes !! "Scene"
  = None /\
  fst ((OldClient.add_scene "Title" [];; OldClient.remove_scene "Title" [])
         Examples.old_client_with_scenes) = Returns tt.
Proof.
  assert (H1 : Scene.registered_scenes
                 (OldClient.scene_manager Examples.old_client_with_scenes)
                 !! "Title"
               = Some (Scene.Instance (Scene.__init__ Examples.Title 0 [])))
    by reflexivity.
  assert (H2 : OldClient.running_scenes Examples.old_client_with_scenes
                 !! "Scene" = None) by reflexivity.
  split; [exact H1|]. split; [exact H2|].
  exact (f_equal fst
           (old_add_then_remove Examples.old_client_with_scenes
              "Title" [] [] _ H1 H2)).
Defined.

(** X26: on the earlier client, [remove_scene] of a registered scene calls
    [on_delete] on it whether or not it is running.  It then deletes the
    entry under "Scene", the key all scenes share, whichever scene that
    entry holds, and raises [KeyError] only when there is no such entry. *)
Theorem old_remove_scene_not_running (self : OldClient.Client) (name : string)
    (kw : Scene.kwargs) (s : Scene.Scene) :
  Scene.registered_scenes (OldClient.scene_manager self) !! name
  = Some (Scene.Instance s) ->
  let fired :=
    OldClient.set_trace
      (OldClient.trace self ++ [OldClient.Hook (Scene.on_delete s kw)])
      self in
  (OldClient.running_scenes self !! "Scene" = None ->
     OldClient.remove_scene name kw self = (Raises KeyError, fired)) /\
  (forall (running : Scene.Scene) (kw0 : Scene.kwargs),
     OldClient.running_scenes self !! "Scene" = Some (running, kw0) ->
     OldClient.remove_scene name kw self
     = (Returns tt,
        OldClient.set_running_scenes
          (delete "Scene" (OldClient.running_scenes self)) fired) /\
     OldClient.running_scenes
       (state_after (OldClient.remove_scene name kw) self) !! "Scene"
     = None).
Proof.
  intros Hr fired. pose proof (old_remove_scene_spec self name kw s Hr) as Hs.
  split.
  - intros Hn. now rewrite Hn in Hs.
  - intros running kw0 Hrun. rewrite Hrun in Hs. split; [exact Hs|].
    unfold state_after. rewrite Hs. simpl. apply dict_lookup_delete_eq.
Qed.

Lemma old_remove_scene_not_running_witness :
  let c1 := state_after (OldClient.add_scene "Title" [])
              Examples.old_client_with_scenes in
  Scene.registered_scenes (OldClient.scene_manager c1) !! "Menu"
  = Some (Scene.Instance (Scene.__init__ Examples.Menu 1 [])) /\
  OldClient.running_scenes c1 !! "Scene"
  = Some (Scene.__init__ Examples.Title 0 [], []) /\
  fst (OldClient.remove_scene "Menu" [] c1) = Returns tt /\
  OldClient.running_scenes
    (state_after (OldClient.remove_scene "Menu" []) c1) !! "Scene" = None.
Proof.
  intros c1.
  assert (H1 : Scene.registered_scenes (OldClient.scene_manager c1) !! "Menu"
               = Some (Scene.Instance (Scene.__init__ Examples.Menu 1 [])))
    by reflexivity.
  assert (H2 : OldClient.running_scenes c1 !! "Scene"
               = Some (Scene.__init__ Examples.Title 0 [], []))
    by reflexivity.
  split; [exact H1|]. split; [exact H2|].
  pose proof (proj2 (old_remove_scene_not_running c1 "Menu" [] _ H1) _ _ H2)
    as [Hret Hgone].
  split; [exact (f_equal fst Hret)|exact Hgone].
Defined.

(** X27: on the earlier client, adding a second scene replaces the first:
    both are awakened, and the table holds the second only, under
    "Scene", without [on_delete] being called on the first. *)
Theorem old_second_add_replaces_first (self : OldClient.Client)
    (name1 name2 : string) (kw1 kw2 : Scene.kwargs) (s1 s2 : Scene.Scene) :
  Scene.registered_scenes (OldClient.scene_manager self) !! name1
  = Some (Scene.Instance s1) ->
  Scene.registered_scenes (OldClient.scene_manager self) !! name2
  = Some (Scene.Instance s2) ->
  (OldClient.add_scene name1 kw1;; OldClient.add_scene name2 kw2) self
  = (Returns tt,
     OldClient.set_running_scenes
       (<["Scene" := (s2, kw2)]> (OldClient.running_scenes self))
       (OldClient.set_trace
          (OldClient.trace self
             ++ [OldClient.Hook (Scene.on_awake s1 kw1);
                 OldClient.Hook (Scene.on_awake s2 kw2)])
          self)).
Proof.
  intros H1 H2.
  rewrite (bind_returns _ _ _ _ _ (old_add_scene_spec self name1 kw1 s1 H1)).
  rewrite (old_add_scene_spec _ name2 kw2 s2) by exact H2.
  simpl. rewrite dict_insert_insert_eq. f_equal.
  destruct self; simpl. now rewrite <- app_assoc.
Qed.

Lemma old_second_add_replaces_first_witness :
  Scene.registered_scenes
    (OldClient.scene_manager Examples.old_client_with_scenes) !! "Title"
  = Some (Scene.Instance (Scene.__init__ Examples.Title 0 [])) /\
  Scene.registered_scenes
    (OldClient.scene_manager Examples.old_client_with_scenes) !! "Menu"
  = Some (Scene.Instance (Scene.__init__ Examples.Menu 1 [])) /\
  fst ((OldClient.add_scene "Title" [];; OldClient.add_scene "Menu" [])
         Examples.old_client_with_scenes) = Returns tt.
Proof.
  assert (H1 : Scene.registered_scenes
                 (OldClient.scene_manager Examples.old_client_with_scenes)
                 !! "Title"
               = Some (Scene.Instance (Scene.__init__ Examples.Title 0 [])))
    by reflexivity.
  assert (H2 : Scene.registered_scenes
                 (OldClient.scene_manager Examples.old_client_with_scenes)
                 !! "Menu"
               = Some (Scene.Instance (Scene.__init__ Examples.Menu 1 [])))
    by reflexivity.
  split; [exact H1|]. split; [exact H2|].
  exact (f_equal fst
           (old_second_add_replaces_first Examples.old_client_with_scenes
              "Title" "Menu" [] [] _ _ H1 H2)).
Defined.

(** The loop over the keys [ks] of the table: it raises at the first
    scene whose pause flag is set, and changes nothing. *)
Lemma old_update_loop_spec : forall ks self,
  (forall k, k ∈ ks -> is_Some (OldClient.running_scenes self !! k)) ->
  for_each ks (fun s =>
    entry ← OldClient.running_scenes_getitem s;
    let s := fst entry in
    if Scene.is_paused s
    then OldClient.lift (Scene.update_without_delta_time s)
    else mret tt) self
  = (if existsb (fun k =>
           match OldClient.running_scenes self !! k with
           | Some entry => Scene.is_paused (fst entry)
           | None => false
           end) ks
     then Raises TypeError else Returns tt, self).
Proof.
  induction ks as [|k ks IH]; intros self Hks; [reflexivity|].
  cbn [for_each existsb].
  destruct (Hks k) as [entry Hk]; [left|].
  assert (Hget : OldClient.running_scenes_getitem k self = (Returns entry, self)).
  { unfold OldClient.running_scenes_getitem. unfold mbind, M_bind, get.
    now rewrite Hk. }
  rewrite Hk.
  destruct (Scene.is_paused (fst entry)) eqn:Hp; simpl.
  - apply bind_raises. rewrite (bind_returns _ _ _ _ _ Hget). cbv zeta.
    now rewrite Hp.
  - erewrite bind_returns.
    + apply IH. intros k' Hk'. apply Hks. now right.
    + rewrite (bind_returns _ _ _ _ _ Hget). cbv zeta. now rewrite Hp.
Qed.

Lemma some_scene_paused_existsb (table : dict (Scene.Scene * Scene.kwargs)) :
  existsb (fun k =>
     match table !! k with
     | Some entry => Scene.is_paused (fst entry)
     | None => false
     end) (dict_keys table) = true
  <-> some_scene_paused table.
Proof.
  rewrite existsb_exists. unfold some_scene_paused. split.
  - intros (k & _ & Hk). destruct (table !! k) as [[s kw]|] eqn:Hl;
      [|discriminate]. eauto.
  - intros (k & s & kw & Hl & Hp). exists k. split.
    + apply list_elem_of_In. eapply dict_lookup_keys. exact Hl.
    + now rewrite Hl.
Qed.

